(** * Cloudinary bulk image uploader: a shallow embedding and its properties

    The development follows the JavaScript sources:
    - [errors/*.js]           the error classes ([Errors]);
    - [image_validation.js]   extension and magic-number validation ([ImageValidator]);
    - [uploader.js]           signature, existence check, chunked upload and the
                              worker pool ([Uploader], [ChunkUpload]);
    - the main module         the batch coordinator [CloudinaryUploader.upload]
                              ([Coordinator]).

    Asynchronous code is modelled by its event-loop steps: every handler runs
    to its next suspension point atomically, and the order in which I/O
    completions arrive is left to a list of labels (events). *)

From Stdlib Require Import ZArith Lia Ascii DecimalString.
From Stdlib Require String.
From stdpp Require Import base list strings sorting.

(** ** JavaScript values and string conversions *)

Module Js.

Local Set Warnings "-register-all".

(** The double quote character, used by the error messages. *)
Definition dquote : string := String (ascii_of_nat 34) EmptyString.

(** [String(n)] for an integral number (below 1e21, where JavaScript still
    prints plain decimal digits). *)
Definition showZ (z : Z) : string := NilZero.string_of_int (Z.to_int z).

(** [Array.prototype.join] on strings. *)
Definition join (sep : string) (l : list string) : string := String.concat sep l.

(** [s.lastIndexOf(c)]: [None] stands for -1. *)
Fixpoint lastIndexOf (c : ascii) (s : string) : option nat :=
  match s with
  | EmptyString => None
  | String a s' =>
      match lastIndexOf c s' with
      | Some i => Some (S i)
      | None => if Ascii.eqb a c then Some 0 else None
      end
  end.

(** [s.substring(from)] and [s.substring(0, to)]. *)
Definition substringFrom (from : nat) (s : string) : string :=
  String.substring from (String.length s - from) s.
Definition substringTo (to : nat) (s : string) : string :=
  String.substring 0 to s.

(** The values that occur as upload parameters. *)
Inductive Val :=
| VStr (s : string)
| VInt (z : Z)
| VBool (b : bool)
| VNull
| VUndef
| VArr (l : list Val).

(** [String(v)]; an array prints its elements joined by commas, where
    [null] and [undefined] elements print as the empty string. *)
Fixpoint toString (v : Val) : string :=
  match v with
  | VStr s => s
  | VInt z => showZ z
  | VBool true => "true"
  | VBool false => "false"
  | VNull => "null"
  | VUndef => "undefined"
  | VArr l =>
      join ","
        (map (fun x => match x with
                       | VNull | VUndef => EmptyString
                       | _ => toString x
                       end) l)
  end.

(** [l.join(sep)] on an array of values. *)
Definition joinVals (sep : string) (l : list Val) : string :=
  join sep
    (map (fun x => match x with
                   | VNull | VUndef => EmptyString
                   | _ => toString x
                   end) l).

(** [[v].join(",")]. *)
Definition joinSingleton (v : Val) : string := joinVals "," [v].

(** What a rejected promise or a [throw] carries. *)
Inductive Thrown :=
| TypeError (message : string)
| ReferenceError (message : string)
| SystemError (message : string).

(** Truthiness, as used by [!!v] and [v ? a : b]. *)
Definition truthy (v : Val) : bool :=
  match v with
  | VStr s => negb (String.eqb s EmptyString)
  | VInt z => negb (z =? 0)%Z
  | VBool b => b
  | VNull | VUndef => false
  | VArr _ => true
  end.

(** Objects used as parameter bags: properties in insertion order. *)
Definition Obj := list (string * Val).

Fixpoint get (k : string) (o : Obj) : Val :=
  match o with
  | [] => VUndef
  | (k', v) :: o' => if String.eqb k k' then v else get k o'
  end.

(** [o[k] = v]: an existing property keeps its position. *)
Fixpoint set (k : string) (v : Val) (o : Obj) : Obj :=
  match o with
  | [] => [(k, v)]
  | (k', v') :: o' =>
      if String.eqb k k' then (k', v) :: o' else (k', v') :: set k v o'
  end.

(** [{...a, ...b}] on top of [a]. *)
Definition spread (a b : Obj) : Obj :=
  fold_left (fun acc kv => set (fst kv) (snd kv) acc) b a.

(** [delete o[k]]. *)
Definition delete (k : string) (o : Obj) : Obj :=
  filter (fun kv => negb (String.eqb k (fst kv))) o.

End Js.

(** ** errors/*.js *)

Module Errors.

(** The classes and their [extends] chain. *)
Inductive Class :=
| Error
| FileError
| FileOpenError
| FileUploadError
| ServerResponseError.

Definition Class_eqb (a b : Class) : bool :=
  match a, b with
  | Error, Error | FileError, FileError | FileOpenError, FileOpenError
  | FileUploadError, FileUploadError
  | ServerResponseError, ServerResponseError => true
  | _, _ => false
  end.

Definition extends (c : Class) : option Class :=
  match c with
  | Error => None
  | FileError => Some Error
  | FileOpenError => Some FileError
  | FileUploadError => Some FileError
  | ServerResponseError => Some FileUploadError
  end.

(** The prototype chain of a class; the hierarchy is four levels deep. *)
Fixpoint chain (fuel : nat) (c : Class) : list Class :=
  match fuel with
  | O => [c]
  | S n => c :: match extends c with
                | Some p => chain n p
                | None => []
                end
  end.

(** An error object: its class and the fields the constructors set. *)
Record t := mk {
  class : Class;
  message : string;
  pathname : option string;
  httpCode : option Z
}.

Definition newFileOpenError (message pathname : string) : t :=
  mk FileOpenError message (Some pathname) None.
Definition newFileUploadError (message pathname : string) : t :=
  mk FileUploadError message (Some pathname) None.
Definition newServerResponseError (message pathname : string) (httpCode : Z) : t :=
  mk ServerResponseError message (Some pathname) (Some httpCode).
Definition newError (message : string) : t :=
  mk Error message None None.

(** [e instanceof C]. *)
Definition instanceof (e : t) (C : Class) : bool :=
  existsb (Class_eqb C) (chain 4 (class e)).

Definition pathString (e : t) : string :=
  match pathname e with Some p => p | None => "undefined" end.

(** [e.toString()]: overridden by [FileOpenError] and [FileUploadError]
    (and inherited from the latter by [ServerResponseError]). *)
Definition toString (e : t) : string :=
  match class e with
  | FileOpenError =>
      "Failed to open " +:+ Js.dquote +:+ pathString e +:+ Js.dquote +:+ ": " +:+ message e
  | FileUploadError | ServerResponseError =>
      "Failed to upload " +:+ Js.dquote +:+ pathString e +:+ Js.dquote +:+ ": " +:+ message e
  | Error | FileError => "Error: " +:+ message e
  end.

End Errors.

(** ** The coordinator's error classification *)

Module Classify.
Import Errors.

(** [http-status-codes]. *)
Definition BAD_REQUEST : Z := 400.
Definition NOT_FOUND : Z := 404.
Definition CONFLICT : Z := 409.

(** [CloudinaryUploader.#isCriticalError]. The [switch] falls through to
    the final [return true] for every code that is not listed, and also
    when [httpCode] is missing. *)
Definition isCriticalError (error : Errors.t) : bool :=
  if instanceof error FileOpenError then false
  else if instanceof error ServerResponseError then
    match httpCode error with
    | Some code =>
        if (code =? BAD_REQUEST)%Z || (code =? NOT_FOUND)%Z || (code =? CONFLICT)%Z
        then false
        else true
    | None => true
    end
  else true.

End Classify.

(** ** uploader.js: the request signature *)

Module Uploader.

Record t := mk {
  apiKey : string;
  apiSecret : string;
  cloudName : string
}.

(** Maximum number of concurrent upload requests allowed by Cloudinary. *)
Definition MAX_CONCURRENT_UPLOADS : nat := 10.

(** File chunk upload size in bytes. *)
Definition CHUNK_UPLOAD_SIZE : Z := 5000000.

(** The order of [Array.prototype.sort] without a comparator: strings are
    compared code unit by code unit. *)
Definition str_le (a b : string) : Prop := String.leb a b = true.

#[export] Instance str_le_dec : RelDecision str_le.
Proof. intros a b. unfold str_le. apply _. Defined.

Definition sort (l : list string) : list string := merge_sort str_le l.

Section Signature.

(** [crypto.createHash('sha256').update(s, 'binary').digest('hex')]. *)
Variable sha256_hex : string -> string.

(** The filter [p => String(p).length > 0] sees the entry [[k, v]]. *)
Definition entryNonEmpty (p : string * Js.Val) : bool :=
  (0 <? String.length (Js.toString (Js.VArr [Js.VStr (fst p); snd p])))%nat.

Definition entryToSign (p : string * Js.Val) : string :=
  fst p +:+ "=" +:+ Js.joinSingleton (snd p).

Definition paramsToSign (optionalParams : Js.Obj) : string :=
  Js.join "&" (sort (map entryToSign (List.filter entryNonEmpty optionalParams))).

(** [Uploader.generateSignature]. *)
Definition generateSignature (self : t) (optionalParams : Js.Obj) : string :=
  sha256_hex (paramsToSign optionalParams +:+ apiSecret self).

End Signature.

End Uploader.

(** ** image_validation.js *)

Module ImageValidator.

Inductive Verdict := NOT_ALLOWED | VALID | INVALID.

Definition Verdict_eqb (a b : Verdict) : bool :=
  match a, b with
  | NOT_ALLOWED, NOT_ALLOWED | VALID, VALID | INVALID, INVALID => true
  | _, _ => false
  end.

(** Common image format magic numbers, then the aliases added by
    [magicNumTable.set]. *)
Definition magicNumTable : list (string * list string) :=
  [ ("bmp", ["424d"]);
    ("png", ["89504e47"]);
    ("gif", ["474946383761"; "474946383961"]);
    ("jpg", ["ffd8ff"]);
    ("tif", ["49492a00"; "4d4d002a"; "4d4d002b"]);
    ("ico", ["00000100"]);
    ("dib", ["424d"]);
    ("jpeg", ["ffd8ff"]);
    ("jpe", ["ffd8ff"]);
    ("tiff", ["49492a00"; "4d4d002a"; "4d4d002b"]) ].

Fixpoint tableGet (ext : string) (table : list (string * list string))
  : option (list string) :=
  match table with
  | [] => None
  | (k, v) :: table' => if String.eqb ext k then Some v else tableGet ext table'
  end.

(** [getFileExtension]: [None] is [null]. *)
Definition getFileExtension (filename : string) : option string :=
  match Js.lastIndexOf "."%char filename with
  | None => None
  | Some extPos =>
      let ext := Js.substringFrom (extPos + 1) filename in
      if String.eqb ext EmptyString then None else Some ext
  end.

(** [allowableTypes.includes(ext)]; a [null] extension is in no list of
    strings. *)
Definition includes (allowableTypes : list string) (ext : option string) : bool :=
  match ext with
  | None => false
  | Some e => existsb (String.eqb e) allowableTypes
  end.

(** The outcome of opening and reading a local file. *)
Inductive ReadResult :=
| ReadOk (content : string)
| ReadError (message : string).

Definition hexDigit (n : N) : ascii :=
  (if n <? 10 then ascii_of_N (48 + n) else ascii_of_N (87 + n))%N.

(** The ['hex'] encoding of a buffer. *)
Fixpoint hexOfBytes (bytes : string) : string :=
  match bytes with
  | EmptyString => EmptyString
  | String c rest =>
      let n := N_of_ascii c in
      String (hexDigit (n / 16)) (String (hexDigit (n mod 16)) (hexOfBytes rest))
  end.

Definition lowerAscii (c : ascii) : ascii :=
  let n := N_of_ascii c in
  (if (65 <=? n) && (n <=? 90) then ascii_of_N (n + 32) else c)%N.

Fixpoint lowerString (s : string) : string :=
  match s with
  | EmptyString => EmptyString
  | String c rest => String (lowerAscii c) (lowerString rest)
  end.

(** [a.localeCompare(b, undefined, { sensitivity: 'accent' }) === 0] on
    strings of hexadecimal digits: equal up to letter case. *)
Definition sameHex (a b : string) : bool :=
  String.eqb (lowerString a) (lowerString b).

Section WithFiles.

(** The local files, by path. *)
Variable fs : string -> ReadResult.

(** [ImageValidator.isValidImage]: the promise resolves with a verdict
    ([inl]) or rejects with a [FileOpenError] ([inr]). *)
Definition isValidImage (allowableTypes : list string) (filename : string)
  : Verdict + Errors.t :=
  let ext := getFileExtension filename in
  if (0 <? length allowableTypes)%nat && negb (includes allowableTypes ext)
  then inl NOT_ALLOWED
  else
    match (match ext with Some e => tableGet e magicNumTable | None => None end) with
    | None => inl VALID
    | Some magicNums =>
        let numChars := String.length (hd EmptyString magicNums) in
        match fs filename with
        | ReadError message => inr (Errors.newFileOpenError message filename)
        | ReadOk content =>
            let fileHeader := hexOfBytes (Js.substringTo (numChars / 2) content) in
            if existsb (fun magicNum => sameHex magicNum fileHeader) magicNums
            then inl VALID
            else inl INVALID
        end
    end.

End WithFiles.

End ImageValidator.

(** ** uploader.js: the existence check *)

Module CheckExists.

(** The URL [Uploader.checkExists] asks for. [folder] and [format] are the
    destructured options, [null] by default. *)
Definition url (self : Uploader.t) (filename : string) (options : Js.Obj) : string :=
  let folder := match Js.get "folder" options with Js.VUndef => Js.VNull | v => v end in
  let format := match Js.get "format" options with Js.VUndef => Js.VNull | v => v end in
  let nameToCheck :=
    match format with
    | Js.VStr fmt =>
        Js.substringTo
          (match Js.lastIndexOf "."%char filename with Some i => i + 1 | None => 0 end)
          filename +:+ fmt
    | _ => filename
    end in
  Js.joinVals "/"
    (List.filter (fun val => (0 <? String.length (Js.toString val))%nat)
       [ Js.VStr "https://res.cloudinary.com";
         Js.VStr (Uploader.cloudName self);
         Js.VStr "image/upload";
         folder;
         Js.VStr nameToCheck ]).

End CheckExists.

(** ** uploader.js: the chunked upload *)

Module ChunkUpload.

Record Options := {
  timeout : Z;
  optionalParams : Js.Obj
}.

(** How one [axios.post] ends: with a response, with an error that carries
    the server's response, or with any other failure (timeout,
    disconnection, abort). *)
Inductive Reply :=
| ReplyOk (data : string)
| ReplyStatus (message : string) (status : Z)
| ReplyFailure (message : string).

(** What the event loop delivers to one [chunkUpload] call: the events of
    the read stream, the resolution of [stat], and the replies to the
    requests already sent (numbered in the order they were sent). *)
Inductive StreamEvent :=
| StreamError (message : string)
| StreamOpen
| StatResolved (size : Z)
| StreamData (chunk : string) (nowMs : Z)
| StreamEnd
| Replied (i : nat) (reply : Reply).

(** One call of [axios.post]. [rqStart] and [rqEnd] are the values of
    [start] and [end] when the request was built. *)
Record Request := {
  rqUrl : string;
  rqForm : list (string * string);
  rqUploadId : Z;
  rqContentRange : string;
  rqTimeout : Z;
  rqStart : Z;
  rqEnd : Z
}.

(** The settled value of the promise returned by [chunkUpload]. *)
Inductive Outcome :=
| Resolved (response : string)
| Rejected (error : Errors.t).

(** The variables captured by the handlers, the requests sent so far and the
    state of the promise ([None]: pending). *)
Record State := {
  start : Z;
  end_ : Z;
  fileSize : Z;
  requests : list Request;
  outcome : option Outcome
}.

Definition initial : State :=
  {| start := 0; end_ := 0; fileSize := 0; requests := []; outcome := None |}.

(** [resolve(v)] and [reject(e)]: only the first call settles the promise. *)
Definition settle (o : Outcome) (st : State) : State :=
  match outcome st with
  | Some _ => st
  | None =>
      {| start := start st; end_ := end_ st; fileSize := fileSize st;
         requests := requests st; outcome := Some o |}
  end.

Definition byteLength (chunk : string) : Z := Z.of_nat (String.length chunk).

(** [Math.round(ms / 1000)] for an integral number of milliseconds. *)
Definition roundSeconds (ms : Z) : Z := ((ms + 500) / 1000)%Z.

Definition byteHeaderRange (start end_ fileSize : Z) : string :=
  "bytes " +:+ Js.showZ start +:+ "-" +:+ Js.showZ (end_ - 1) +:+ "/"
  +:+ Js.showZ fileSize.

Section Call.

Variable sha256_hex : string -> string.
Variable self : Uploader.t.
Variable url : string.
Variable options : Options.
(** [+new Date()] when the call starts. *)
Variable XUniqueUploadId : Z.

(** The ['data'] handler up to its [await]: the offsets move on and one
    request is sent. *)
Definition onData (chunk : string) (nowMs : Z) (st : State) : State :=
  let start' := end_ st in
  let end' := (end_ st + byteLength chunk)%Z in
  let timestamp := roundSeconds nowMs in
  let optionsCopy :=
    Js.delete "resource_type"
      (Js.spread [("timestamp", Js.VInt timestamp)] (optionalParams options)) in
  let signature := Uploader.generateSignature sha256_hex self optionsCopy in
  let formdata :=
    [ ("file", chunk);
      ("api_key", Uploader.apiKey self);
      ("timestamp", Js.showZ timestamp);
      ("signature", signature) ]
    ++ map (fun kv => (fst kv, Js.toString (snd kv))) optionsCopy in
  let request :=
    {| rqUrl := "https://api.cloudinary.com/v1_1/" +:+ Uploader.cloudName self
                +:+ "/auto/upload";
       rqForm := formdata;
       rqUploadId := XUniqueUploadId;
       rqContentRange := byteHeaderRange start' end' (fileSize st);
       rqTimeout := timeout options;
       rqStart := start';
       rqEnd := end' |} in
  {| start := start'; end_ := end'; fileSize := fileSize st;
     requests := requests st ++ [request]; outcome := outcome st |}.

(** The [then] and [catch] handlers of one request. In the [catch] handler
    the second [reject] follows the first without a [return]; it finds the
    promise settled. *)
Definition onReply (reply : Reply) (st : State) : State :=
  match reply with
  | ReplyOk data =>
      if (fileSize st <=? end_ st)%Z then settle (Resolved data) st else st
  | ReplyStatus message status =>
      settle (Rejected (Errors.newFileUploadError message url))
        (settle (Rejected (Errors.newServerResponseError message url status)) st)
  | ReplyFailure message =>
      settle (Rejected (Errors.newFileUploadError message url)) st
  end.

Definition handle (st : State) (ev : StreamEvent) : State :=
  match ev with
  | StreamError message => settle (Rejected (Errors.newFileOpenError message url)) st
  | StreamOpen => st
  | StatResolved size =>
      {| start := start st; end_ := end_ st; fileSize := size;
         requests := requests st; outcome := outcome st |}
  | StreamData chunk nowMs => onData chunk nowMs st
  | StreamEnd => st
  | Replied i reply =>
      match requests st !! i with
      | Some _ => onReply reply st
      | None => st
      end
  end.

(** [Uploader.chunkUpload] after the given events. *)
Definition chunkUpload (events : list StreamEvent) : State :=
  fold_left handle events initial.

End Call.

(** The chunks the stream delivered, in order. *)
Fixpoint dataChunks (events : list StreamEvent) : list string :=
  match events with
  | [] => []
  | StreamData chunk _ :: rest => chunk :: dataChunks rest
  | _ :: rest => dataChunks rest
  end.

Definition isStat (ev : StreamEvent) : bool :=
  match ev with StatResolved _ => true | _ => false end.

(** The byte ranges that consecutive chunks of the given lengths occupy,
    from offset [from] on: start inclusive, end exclusive. *)
Fixpoint ranges (from : Z) (lens : list Z) : list (Z * Z) :=
  match lens with
  | [] => []
  | len :: rest => (from, (from + len)%Z) :: ranges (from + len)%Z rest
  end.

Definition rangeOf (r : Request) : Z * Z := (rqStart r, rqEnd r).

(** The size of a file read as the given chunks. *)
Definition totalBytes (chunks : list string) : Z :=
  foldr Z.add 0%Z (byteLength <$> chunks).

End ChunkUpload.

(** ** uploader.js: the worker pool *)

Module BulkUpload.

(** Where one of the [uploaders] stands: about to evaluate the condition of
    its [while] loop, suspended on the [await] of a [chunkUpload] call, or
    past [resolve()]. *)
Inductive Worker :=
| Looping
| Awaiting (fileURL : string)
| Exited.

(** How the awaited [chunkUpload] settled. *)
Inductive Settled :=
| Fulfilled (data : string)
| Failed (error : Errors.t).

(** The arguments of one [chunkUpload] call. *)
Record Call := {
  callURL : string;
  callTimeout : option Z;
  callParams : Js.Obj
}.

Section Pool.

(** The state shared with the caller through [signal] and [callback]. *)
Variable Shared : Type.
(** [signal?.aborted]. *)
Variable aborted : Shared -> bool.
(** [callback(fileURL, data, error)], when a function was given. *)
Variable callback : option (string -> option string -> option Errors.t -> Shared -> Shared).
Variable imgDir : string.
Variable timeout : option Z.
Variable optionalParams : Js.Obj.

(** [cursor] holds the filenames [fileGen] has not yielded yet. [claimed]
    records every value taken from the generator with the worker that took
    it, [started] every [chunkUpload] call with the worker that made it. *)
Record State := {
  cursor : list string;
  workers : list Worker;
  shared : Shared;
  claimed : list (nat * string);
  started : list (nat * Call)
}.

Definition numRequests (filenames : list string) : nat :=
  Nat.min Uploader.MAX_CONCURRENT_UPLOADS (length filenames).

Definition begin (filenames : list string) (sh : Shared) : State :=
  {| cursor := filenames;
     workers := replicate (numRequests filenames) Looping;
     shared := sh;
     claimed := [];
     started := [] |}.

Inductive Label :=
| Claim (w : nat)
| Settle (w : nat) (result : Settled).

(** The public name is the filename without the extension. *)
Definition publicName (filename : string) : string :=
  Js.substringTo
    (match Js.lastIndexOf "."%char filename with Some i => i | None => 0 end)
    filename.

(** One turn of worker [w]. [Claim]: the loop condition calls
    [fileGen.next()] first and looks at the signal second, then either the
    body runs up to its [await] or the loop is left. [Settle]: the awaited
    call settles, the [then] or [catch] handler calls the callback, and the
    worker is back at the loop condition. *)
Definition step (st : State) (l : Label) : option State :=
  match l with
  | Claim w =>
      match workers st !! w with
      | Some Looping =>
          match cursor st with
          | [] =>
              Some {| cursor := []; workers := <[w := Exited]> (workers st);
                      shared := shared st; claimed := claimed st;
                      started := started st |}
          | filename :: rest =>
              if aborted (shared st) then
                Some {| cursor := rest; workers := <[w := Exited]> (workers st);
                        shared := shared st;
                        claimed := claimed st ++ [(w, filename)];
                        started := started st |}
              else
                let fileURL := imgDir +:+ filename in
                let call :=
                  {| callURL := fileURL; callTimeout := timeout;
                     callParams :=
                       Js.spread optionalParams
                         [("public_id", Js.VStr (publicName filename))] |} in
                Some {| cursor := rest;
                        workers := <[w := Awaiting fileURL]> (workers st);
                        shared := shared st;
                        claimed := claimed st ++ [(w, filename)];
                        started := started st ++ [(w, call)] |}
          end
      | _ => None
      end
  | Settle w result =>
      match workers st !! w with
      | Some (Awaiting fileURL) =>
          let sh :=
            match callback with
            | Some cb =>
                match result with
                | Fulfilled data => cb fileURL (Some data) None (shared st)
                | Failed error => cb fileURL None (Some error) (shared st)
                end
            | None => shared st
            end in
          Some {| cursor := cursor st; workers := <[w := Looping]> (workers st);
                  shared := sh; claimed := claimed st; started := started st |}
      | _ => None
      end
  end.

Fixpoint run (st : State) (labels : list Label) : option State :=
  match labels with
  | [] => Some st
  | l :: rest =>
      match step st l with
      | Some st' => run st' rest
      | None => None
      end
  end.

(** [Promise.allSettled(uploaders)] resolves once every worker has called
    [resolve()]. *)
Definition allExited (st : State) : bool :=
  forallb (fun w => match w with Exited => true | _ => false end) (workers st).

End Pool.

Arguments cursor {Shared} _.
Arguments workers {Shared} _.
Arguments shared {Shared} _.
Arguments claimed {Shared} _.
Arguments started {Shared} _.
Arguments allExited {Shared} _.

End BulkUpload.

(** ** The batch coordinator: shared state and the pre-upload filter *)

Module Coordinator.

Inductive Event := UPLOAD_SUCCESS | UPLOAD_ERROR | UPLOAD_CRITICAL | END_WRITE.

(** The description given to [Symbol(...)] for each event; the symbols
    themselves are distinct whatever their descriptions. *)
Definition description (e : Event) : string :=
  match e with
  | UPLOAD_SUCCESS => "upload success"
  | UPLOAD_ERROR => "upload error"
  | UPLOAD_CRITICAL => "upload error"
  | END_WRITE => "end write"
  end.

Definition Event_eqb (a b : Event) : bool :=
  match a, b with
  | UPLOAD_SUCCESS, UPLOAD_SUCCESS | UPLOAD_ERROR, UPLOAD_ERROR
  | UPLOAD_CRITICAL, UPLOAD_CRITICAL | END_WRITE, END_WRITE => true
  | _, _ => false
  end.

(** The second argument handed to the listeners. *)
Inductive Payload :=
| PMessage (message : string)
| PError (error : Errors.t)
| PResponse (data : option string)
| PNone.

Record Notification := notify {
  event : Event;
  subject : string;
  payload : Payload
}.

Record ErrorOptions := {
  errorFilename : option string;
  lineSep : option string;
  timeout : option Z;
  overwrite : bool
}.

Record UploadOptions := {
  imgDir : string;
  specificFiles : option (list string);
  errorOptions : ErrorOptions;
  optionalParams : Js.Obj;
  allowedFileTypes : list string
}.

(** What the batch reads from outside: local files, the directory listing,
    the error file ([logExists]: it is already there; [appendOk]: appending
    this text succeeds), the remote store and the host line terminator. *)
Record Env := {
  fs : string -> ImageValidator.ReadResult;
  readdir : string -> option (list string);
  logExists : string -> bool;
  appendOk : string -> bool;
  remoteExists : string -> bool;
  EOL : string
}.

(** The state the closures of one [upload] call share. *)
Record World := {
  emitted : list Notification;
  writeCount : Z;
  pendingWrites : list string;
  failedWrites : list string;
  logFile : list string;
  enqueued : list string;
  headRequests : list string
}.

Definition world0 : World :=
  {| emitted := []; writeCount := 0; pendingWrites := []; failedWrites := [];
     logFile := []; enqueued := []; headRequests := [] |}.

(** Computations that read and update the shared state and may throw. *)
Inductive Result (A : Type) :=
| Ok (a : A)
| Throw (e : Js.Thrown).
Arguments Ok {A} a.
Arguments Throw {A} e.

Definition M (A : Type) : Type := World -> Result A * World.

Definition ret {A} (a : A) : M A := fun w => (Ok a, w).
Definition throw {A} (e : Js.Thrown) : M A := fun w => (Throw e, w).
Definition bind {A B} (m : M A) (k : A -> M B) : M B :=
  fun w => match m w with
           | (Ok a, w') => k a w'
           | (Throw e, w') => (Throw e, w')
           end.

Notation "x <- m ;; k" := (bind m (fun x => k))
  (at level 100, m at next level, right associativity).
Notation "m ;;; k" := (bind m (fun _ => k))
  (at level 100, right associativity).

(** [this.emit(event, subject, payload)]. *)
Definition emit (e : Event) (subject : string) (p : Payload) : M unit :=
  fun w =>
    (Ok tt,
     {| emitted := emitted w ++ [notify e subject p];
        writeCount := writeCount w; pendingWrites := pendingWrites w;
        failedWrites := failedWrites w;
        logFile := logFile w; enqueued := enqueued w;
        headRequests := headRequests w |}).

(** [++writeCount], together with the record of the message handed to
    [logError]. *)
Definition enqueueWrite (msg : string) : M unit :=
  fun w =>
    (Ok tt,
     {| emitted := emitted w;
        writeCount := writeCount w + 1; pendingWrites := pendingWrites w;
        failedWrites := failedWrites w;
        logFile := logFile w; enqueued := enqueued w ++ [msg];
        headRequests := headRequests w |}).

(** A successful [appendFile] followed by the [then] handler of [logError]:
    the text reaches the file, [--writeCount], and [END_WRITE] is emitted
    when the counter is back to zero. *)
Definition completeWrite (msg : string) : M unit :=
  fun w =>
    let n := (writeCount w - 1)%Z in
    (Ok tt,
     {| emitted := if (n =? 0)%Z then emitted w ++ [notify END_WRITE EmptyString PNone]
                   else emitted w;
        writeCount := n; pendingWrites := pendingWrites w;
        failedWrites := failedWrites w;
        logFile := logFile w ++ [msg]; enqueued := enqueued w;
        headRequests := headRequests w |}).

(** A rejected [appendFile]: the [then] handler does not run. *)
Definition failWrite (msg : string) : M unit :=
  fun w =>
    (Throw (Js.SystemError "appendFile failed"),
     {| emitted := emitted w;
        writeCount := writeCount w; pendingWrites := pendingWrites w;
        failedWrites := failedWrites w ++ [msg];
        logFile := logFile w; enqueued := enqueued w;
        headRequests := headRequests w |}).

(** [appendFile] has been called for [msg]: the write is in flight. *)
Definition issueWrite (msg : string) : M unit :=
  fun w =>
    (Ok tt,
     {| emitted := emitted w;
        writeCount := writeCount w; pendingWrites := pendingWrites w ++ [msg];
        failedWrites := failedWrites w;
        logFile := logFile w; enqueued := enqueued w;
        headRequests := headRequests w |}).

(** The [i]-th write in flight has settled. *)
Definition dropPending (i : nat) (w : World) : World :=
  {| emitted := emitted w;
     writeCount := writeCount w; pendingWrites := delete i (pendingWrites w);
     failedWrites := failedWrites w;
     logFile := logFile w; enqueued := enqueued w;
     headRequests := headRequests w |}.

Definition recordHead (u : string) : M unit :=
  fun w =>
    (Ok tt,
     {| emitted := emitted w;
        writeCount := writeCount w; pendingWrites := pendingWrites w;
        failedWrites := failedWrites w;
        logFile := logFile w; enqueued := enqueued w;
        headRequests := headRequests w ++ [u] |}).

Section Batch.

Variable env : Env.
Variable uploader : Uploader.t.
Variable options : UploadOptions.

(** [errorFileHandle] is [null] unless [errorFilename] is a string. *)
Definition hasErrorFile : bool :=
  match errorFilename (errorOptions options) with Some _ => true | None => false end.

(** [await open(errorFilename, overwrite ? 'w' : 'wx')]: with ['wx'] the
    call fails when the file exists. *)
Definition openErrorFile : M unit :=
  match errorFilename (errorOptions options) with
  | None => ret tt
  | Some name =>
      if negb (overwrite (errorOptions options)) && logExists env name
      then throw (Js.SystemError "EEXIST: file already exists")
      else ret tt
  end.

Definition lineSeparator : string :=
  match lineSep (errorOptions options) with
  | None => EOL env
  | Some sep => sep
  end.

(** [logError] as awaited by the filter predicate: the write settles
    before the predicate goes on. Without an error file
    [errorFileHandle?.appendFile(...)] is [undefined] and reading [.then]
    of it throws, after the counter was incremented. *)
Definition logError (msg : string) : M unit :=
  enqueueWrite msg ;;;
  if hasErrorFile then
    if appendOk env msg then completeWrite msg else failWrite msg
  else throw (Js.TypeError "Cannot read properties of undefined (reading 'then')").

Definition ignoreFileExistCheck : bool :=
  Js.truthy (Js.get "overwrite" (optionalParams options)).

(** The object-valued bindings visible from the filter predicate: the
    destructured parameters of [upload]. No declaration of [apiOptions]
    exists in the module. *)
Definition scope : list (string * Js.Obj) :=
  [ ("optionalParams", optionalParams options) ].

(** Evaluating an identifier: a [ReferenceError] when it is not declared. *)
Definition identifier (name : string) : M Js.Obj :=
  match List.find (fun b => String.eqb name (fst b)) scope with
  | Some b => ret (snd b)
  | None => throw (Js.ReferenceError (name +:+ " is not defined"))
  end.

(** [await this.#uploader.checkExists(f, opts)]: one HEAD request. *)
Definition checkExists (f : string) (opts : Js.Obj) : M bool :=
  let u := CheckExists.url uploader f opts in
  recordHead u ;;; ret (remoteExists env u).

(** The predicate handed to [asyncFilter]. [imgRes] is [None] when the
    validator rejected: the [catch] handler returns [undefined]. *)
Definition filterPredicate (f : string) : M bool :=
  let pathname := imgDir options +:+ f in
  imgRes <-
    match ImageValidator.isValidImage (fs env) (allowedFileTypes options) pathname with
    | inl verdict => ret (Some verdict)
    | inr error =>
        emit UPLOAD_ERROR pathname (PMessage (Errors.toString error)) ;;;
        logError (Errors.toString error +:+ lineSeparator) ;;;
        ret None
    end ;;
  match imgRes with
  | Some ImageValidator.INVALID =>
      let errorMsg :=
        "Failed to upload " +:+ Js.dquote +:+ pathname +:+ Js.dquote
        +:+ ": file is invalid." in
      emit UPLOAD_ERROR pathname (PMessage errorMsg) ;;;
      logError (errorMsg +:+ lineSeparator)
  | _ => ret tt
  end ;;;
  match imgRes with
  | Some ImageValidator.VALID =>
      if ignoreFileExistCheck then ret true
      else
        apiOptions <- identifier "apiOptions" ;;
        exists_ <- checkExists f (Js.spread [] apiOptions) ;;
        ret (negb exists_)
  | _ => ret false
  end.

(** [asyncFilter]: every predicate is started; the result is the first
    rejection if there is one, else the values whose predicate held.
    Predicates are run one after the other here, in the order of the
    array. *)
Fixpoint asyncFilter (arr : list string) (predicate : string -> M bool)
  : M (list string) :=
  match arr with
  | [] => ret []
  | value :: rest =>
      fun w =>
        match predicate value w with
        | (Ok keep, w1) =>
            match asyncFilter rest predicate w1 with
            | (Ok kept, w2) => (Ok (if keep then value :: kept else kept), w2)
            | (Throw e, w2) => (Throw e, w2)
            end
        | (Throw e, w1) =>
            (Throw e, snd (asyncFilter rest predicate w1))
        end
  end.

(** [upload] up to the call of [bulkUpload]: the filenames to upload, or the
    rejection of the whole call. *)
Definition candidates : M (list string) :=
  match specificFiles options with
  | Some files => ret files
  | None =>
      match readdir env (imgDir options) with
      | Some files => ret files
      | None => throw (Js.SystemError "ENOENT: no such file or directory, scandir")
      end
  end.

Definition preUpload : M (list string) :=
  openErrorFile ;;;
  arr <- candidates ;;
  asyncFilter arr filterPredicate.

(** The state [bulkUpload] shares with its callback: the closures' state and
    [uploadController.signal.aborted]. *)
Record Shared := {
  world : World;
  signalAborted : bool
}.

(** [logError] as called from the callback, whose promise nobody awaits:
    the counter is incremented and [appendFile] is called; the write is then
    in flight. Without an error file the call throws as in [logError]. *)
Definition logErrorStart (msg : string) : M unit :=
  enqueueWrite msg ;;;
  if hasErrorFile then issueWrite msg
  else throw (Js.TypeError "Cannot read properties of undefined (reading 'then')").

(** The callback given to [bulkUpload], up to its first suspension. A
    rejection of the callback's own promise is not observed by anyone. *)
Definition callback (fileURL : string) (response : option string)
    (error : option Errors.t) (sh : Shared) : Shared :=
  match error with
  | Some err =>
      if negb (signalAborted sh) then
        if Classify.isCriticalError err then
          {| world :=
               snd ((emit UPLOAD_CRITICAL fileURL (PError err) ;;;
                     logErrorStart
                       ("Aborting upload process due to critical error: "
                        +:+ Errors.toString err)) (world sh));
             signalAborted := true |}
        else
          {| world :=
               snd ((emit UPLOAD_ERROR fileURL (PError err) ;;;
                     logErrorStart (Errors.toString err +:+ lineSeparator)) (world sh));
             signalAborted := signalAborted sh |}
      else
        {| world := snd (emit UPLOAD_SUCCESS fileURL (PResponse response) (world sh));
           signalAborted := signalAborted sh |}
  | None =>
      {| world := snd (emit UPLOAD_SUCCESS fileURL (PResponse response) (world sh));
         signalAborted := signalAborted sh |}
  end.

(** [upload] after the filter: the pool is running; the pool has settled
    with writes in flight and the [END_WRITE] listener is registered; or
    [errorFileHandle?.close()] has been called. *)
Inductive Phase :=
| Uploading
| WaitingForWrites
| Closed.

Record Batch := {
  pool : BulkUpload.State Shared;
  phase : Phase
}.

Inductive Label :=
| PoolStep (l : BulkUpload.Label)
| WriteDone (i : nat)
| WriteFailed (i : nat)
| PoolSettled.

Definition poolStep : BulkUpload.State Shared -> BulkUpload.Label
                      -> option (BulkUpload.State Shared) :=
  BulkUpload.step Shared signalAborted (Some callback) (imgDir options)
    (timeout (errorOptions options)) (optionalParams options).

Definition withWorld (b : Batch) (w : World) (ph : Phase) : Batch :=
  {| pool :=
       {| BulkUpload.cursor := BulkUpload.cursor (pool b);
          BulkUpload.workers := BulkUpload.workers (pool b);
          BulkUpload.shared :=
            {| world := w; signalAborted := signalAborted (BulkUpload.shared (pool b)) |};
          BulkUpload.claimed := BulkUpload.claimed (pool b);
          BulkUpload.started := BulkUpload.started (pool b) |};
     phase := ph |}.

Definition batchWorld (b : Batch) : World := world (BulkUpload.shared (pool b)).

(** One step of the batch. [WriteDone i]: the [i]-th write in flight
    succeeds and the [then] handler of [logError] runs; when it emits
    [END_WRITE] while [upload] is waiting for it, [upload] goes on to close
    the error file. [WriteFailed i]: the write is rejected. [PoolSettled]:
    [bulkUpload] has resolved and the [then] handler looks at [writeCount]. *)
Definition step (b : Batch) (l : Label) : option Batch :=
  match l with
  | PoolStep pl =>
      match poolStep (pool b) pl with
      | Some p => Some {| pool := p; phase := phase b |}
      | None => None
      end
  | WriteDone i =>
      match pendingWrites (batchWorld b) !! i with
      | Some msg =>
          let w := snd (completeWrite msg (dropPending i (batchWorld b))) in
          Some (withWorld b w
                  (match phase b with
                   | WaitingForWrites =>
                       if (writeCount w =? 0)%Z then Closed else WaitingForWrites
                   | ph => ph
                   end))
      | None => None
      end
  | WriteFailed i =>
      match pendingWrites (batchWorld b) !! i with
      | Some msg =>
          Some (withWorld b (snd (failWrite msg (dropPending i (batchWorld b)))) (phase b))
      | None => None
      end
  | PoolSettled =>
      match phase b with
      | Uploading =>
          if BulkUpload.allExited (pool b) then
            Some {| pool := pool b;
                    phase := if (0 <? writeCount (batchWorld b))%Z
                             then WaitingForWrites else Closed |}
          else None
      | _ => None
      end
  end.

Fixpoint run (b : Batch) (labels : list Label) : option Batch :=
  match labels with
  | [] => Some b
  | l :: rest =>
      match step b l with
      | Some b' => run b' rest
      | None => None
      end
  end.

(** [CloudinaryUploader.upload] up to the start of the pool: the call is
    rejected, or the batch runs. *)
Inductive Started :=
| Rejects (e : Js.Thrown) (w : World)
| Runs (b : Batch).

Definition upload : Started :=
  match preUpload world0 with
  | (Throw e, w) => Rejects e w
  | (Ok filenames, w) =>
      Runs {| pool := BulkUpload.begin Shared filenames
                        {| world := w; signalAborted := false |};
              phase := Uploading |}
  end.

End Batch.

End Coordinator.

(** ** Invariants of a batch *)

Module Invariants.
Import Coordinator.

(** The counter of pending log writes against the writes themselves. With an
    error file ([h] holds) every message handed to [logError] is in the file,
    in flight or failed, and the counter counts the last two; without one no
    write exists and the counter counts the calls. *)
Definition counted (h : bool) (w : World) : Prop :=
  writeCount w
  = Z.of_nat (length (pendingWrites w) + length (failedWrites w)
              + (if h then 0 else length (enqueued w)))
  /\ (if h then enqueued w ≡ₚ logFile w ++ pendingWrites w ++ failedWrites w
      else logFile w = [] /\ pendingWrites w = [] /\ failedWrites w = []).

(** After the pool has settled every worker has left its loop. *)
Definition settled (b : Batch) : Prop :=
  phase b <> Uploading -> BulkUpload.allExited (pool b) = true.

(** A computation keeps the counter consistent. *)
Definition preserves (h : bool) {A} (m : M A) : Prop :=
  forall w, counted h w -> counted h (snd (m w)).

(** The file a record of [claimed] or [started] of the pool is about. *)
Definition claimedURL (imgDir : string) (c : nat * string) : nat * string :=
  (fst c, imgDir +:+ snd c).
Definition startedURL (c : nat * BulkUpload.Call) : nat * string :=
  (fst c, BulkUpload.callURL (snd c)).

(** The pool against its input: the number of workers, the generator as a
    cursor over the input, and the uploads started among the filenames
    taken. *)
Definition poolInv {S : Type} (imgDir : string) (filenames : list string)
    (st : BulkUpload.State S) : Prop :=
  length (BulkUpload.workers st) = Nat.min 10 (length filenames)
  /\ (snd <$> BulkUpload.claimed st) ++ BulkUpload.cursor st = filenames
  /\ (startedURL <$> BulkUpload.started st)
       `sublist_of` (claimedURL imgDir <$> BulkUpload.claimed st).

Definition batchInv (options : UploadOptions) (b : Batch) : Prop :=
  counted (hasErrorFile options) (batchWorld b)
  /\ settled b
  /\ (phase b = Closed -> writeCount (batchWorld b) = 0%Z).

End Invariants.

(** ** Sample inputs *)

Module Samples.
Import Coordinator.

Definition uploader : Uploader.t := Uploader.mk "key" "secret" "demo".

(** A machine where [img/cat.png] does not start with the PNG magic number
    and no other file can be read; appending to the error file succeeds. *)
Definition env : Env :=
  {| fs := fun path =>
             if String.eqb path "img/cat.png" then ImageValidator.ReadOk "hello"
             else ImageValidator.ReadError "ENOENT: no such file or directory";
     readdir := fun _ => None;
     logExists := fun _ => false;
     appendOk := fun _ => true;
     remoteExists := fun _ => true;
     EOL := String (ascii_of_nat 10) EmptyString |}.

Definition batchOf (files : list string) (allowed : list string)
    (log : option string) (params : Js.Obj) : UploadOptions :=
  {| imgDir := "img/";
     specificFiles := Some files;
     errorOptions :=
       {| errorFilename := log; lineSep := None; timeout := None; overwrite := true |};
     optionalParams := params;
     allowedFileTypes := allowed |}.

(** One invalid image, no error file: every option at its default. *)
Definition invalidWithoutLog : UploadOptions :=
  batchOf ["cat.png"] [] None [].

(** One file that passes validation, existence check not bypassed. *)
Definition validWithCheck : UploadOptions :=
  batchOf ["notes.raw"] [] (Some "errors.log") [].

(** Two files, existence check bypassed, errors logged. *)
Definition twoFiles : UploadOptions :=
  batchOf ["a.raw"; "b.raw"] [] (Some "errors.log") [("overwrite", Js.VBool true)].

Definition unauthorized : Errors.t :=
  Errors.newServerResponseError "Request failed with status code 401" "img/a.raw" 401.

Definition canceled : Errors.t :=
  Errors.newFileUploadError "canceled" "img/b.raw".

(** Both files are in flight; the first is refused with status 401, then the
    second fails because its request was aborted; the pool settles and the
    write of the critical entry completes. *)
Definition abortedRun : list Label :=
  [ PoolStep (BulkUpload.Claim 0);
    PoolStep (BulkUpload.Claim 1);
    PoolStep (BulkUpload.Settle 0 (BulkUpload.Failed unauthorized));
    PoolStep (BulkUpload.Settle 1 (BulkUpload.Failed canceled));
    PoolStep (BulkUpload.Claim 0);
    PoolStep (BulkUpload.Claim 1);
    PoolSettled;
    WriteDone 0 ].

Definition elevenFiles : list string :=
  [ "a.raw"; "b.raw"; "c.raw"; "d.raw"; "e.raw"; "f.raw"; "g.raw"; "h.raw";
    "i.raw"; "j.raw"; "k.raw" ].

Definition elevenOptions : UploadOptions :=
  batchOf elevenFiles [] (Some "errors.log") [("overwrite", Js.VBool true)].

(** Ten workers take the first ten files; the first upload is refused with
    status 401. *)
Definition tenClaimsThenAbort : list BulkUpload.Label :=
  map BulkUpload.Claim (seq 0 10)
  ++ [ BulkUpload.Settle 0 (BulkUpload.Failed unauthorized) ].

(** The pool as [upload] starts it on the eleven files, after those steps. *)
Definition poolRun : option (BulkUpload.State Shared) :=
  BulkUpload.run Shared signalAborted (Some (callback env elevenOptions))
    "img/" None [("overwrite", Js.VBool true)]
    (BulkUpload.begin Shared elevenFiles
       {| world := world0; signalAborted := false |})
    tenClaimsThenAbort.

(** A file of five bytes read as two chunks. *)
Definition chunkedEvents : list ChunkUpload.StreamEvent :=
  [ ChunkUpload.StreamData "abc" 1700000000400;
    ChunkUpload.Replied 0 (ChunkUpload.ReplyOk "part");
    ChunkUpload.StreamData "de" 1700000000600;
    ChunkUpload.StreamEnd;
    ChunkUpload.Replied 1 (ChunkUpload.ReplyOk "done") ].

End Samples.

(** ** image_validation.js: the supported types *)

Module SupportedTypes.

(** [ImageValidator.getSupportedTypes]: the keys of the table, in insertion
    order. *)
Definition getSupportedTypes : list string :=
  map fst ImageValidator.magicNumTable.

End SupportedTypes.

(** ** uploader.js: the upload in one request *)

Module SingleUpload.

(** Whether the read stream emitted ['open'] (the file's bytes will follow)
    or ['error']. *)
Inductive Opened :=
| StreamOpened (content : string)
| StreamFailed (message : string).

Record Request := {
  rqUrl : string;
  rqForm : list (string * string);
  rqTimeout : Z
}.

(** [optionsCopy.resource_type ?? 'auto'], as it is printed into the URL. *)
Definition resourceType (optionsCopy : Js.Obj) : string :=
  match Js.get "resource_type" optionsCopy with
  | Js.VNull | Js.VUndef => "auto"
  | v => Js.toString v
  end.

Section Call.

Variable sha256_hex : string -> string.
Variable self : Uploader.t.
Variable url : string.
Variable options : ChunkUpload.Options.

(** The request [Uploader.upload] sends once the file is open. *)
Definition request (content : string) (nowMs : Z) : Request :=
  let timestamp := ChunkUpload.roundSeconds nowMs in
  let withType :=
    Js.spread [("timestamp", Js.VInt timestamp)] (ChunkUpload.optionalParams options) in
  let optionsCopy := Js.delete "resource_type" withType in
  let signature := Uploader.generateSignature sha256_hex self optionsCopy in
  let form :=
    [ ("file", content);
      ("api_key", Uploader.apiKey self);
      ("timestamp", Js.showZ timestamp);
      ("signature", signature) ]
    ++ map (fun kv => (fst kv, Js.toString (snd kv))) optionsCopy in
  {| rqUrl := "https://api.cloudinary.com/v1_1/" +:+ Uploader.cloudName self
              +:+ "/" +:+ resourceType withType +:+ "/upload";
     rqForm := form;
     rqTimeout := ChunkUpload.timeout options |}.

(** [Uploader.upload]: the request sent, if any, and how the returned
    promise settles, given how the stream opened and how the request ended. *)
Definition upload (opened : Opened) (nowMs : Z) (reply : ChunkUpload.Reply)
  : option Request * ChunkUpload.Outcome :=
  match opened with
  | StreamFailed message =>
      (None, ChunkUpload.Rejected (Errors.newFileOpenError message url))
  | StreamOpened content =>
      (Some (request content nowMs),
       match reply with
       | ChunkUpload.ReplyOk data => ChunkUpload.Resolved data
       | ChunkUpload.ReplyStatus message status =>
           ChunkUpload.Rejected (Errors.newServerResponseError message url status)
       | ChunkUpload.ReplyFailure message =>
           ChunkUpload.Rejected (Errors.newFileUploadError message url)
       end)
  end.

End Call.

End SingleUpload.

(** ** Observations on a batch and on the pool *)

Module Observations.

(** The number of [UPLOAD_CRITICAL] notifications emitted so far. *)
Definition criticals (w : Coordinator.World) : nat :=
  length (List.filter
            (fun n => Coordinator.Event_eqb (Coordinator.event n) Coordinator.UPLOAD_CRITICAL)
            (Coordinator.emitted w)).

(** A computation keeps a property of the shared state. *)
Definition keeps (P : Coordinator.World -> Prop) {A} (m : Coordinator.M A) : Prop :=
  forall w, P w -> P (snd (m w)).

(** One critical notification exactly when the signal is aborted. *)
Definition criticalOnce (b : Coordinator.Batch) : Prop :=
  criticals (Coordinator.batchWorld b)
  = if Coordinator.signalAborted (BulkUpload.shared (Coordinator.pool b))
    then 1%nat else 0%nat.

(** The notifications other than the internal [END_WRITE]. *)
Definition visible (w : Coordinator.World) : list Coordinator.Notification :=
  List.filter
    (fun n => negb (Coordinator.Event_eqb (Coordinator.event n) Coordinator.END_WRITE))
    (Coordinator.emitted w).

(** Whether the validator's answer is [VALID]. *)
Definition isVALID (r : ImageValidator.Verdict + Errors.t) : bool :=
  match r with inl ImageValidator.VALID => true | _ => false end.

(** What a call made by a worker looks like, for a filename of the input. *)
Definition callFor (imgDir : string) (timeout : option Z) (filenames : list string)
    (c : BulkUpload.Call) : Prop :=
  exists filename,
    In filename filenames /\
    BulkUpload.callURL c = imgDir +:+ filename /\
    BulkUpload.callTimeout c = timeout /\
    Js.get "public_id" (BulkUpload.callParams c)
    = Js.VStr (BulkUpload.publicName filename).

(** When the signal can never be aborted, every filename taken is uploaded,
    and a worker only leaves its loop once the generator is exhausted. *)
Definition drains {S : Type} (imgDir : string) (st : BulkUpload.State S) : Prop :=
  Invariants.startedURL <$> BulkUpload.started st
  = Invariants.claimedURL imgDir <$> BulkUpload.claimed st
  /\ (In BulkUpload.Exited (BulkUpload.workers st) -> BulkUpload.cursor st = []).

End Observations.

(** * Properties *)

(** C2. Classification of a terminal error by the coordinator: an open error
    is never fatal; a server error with status 400, 404 or 409 is not fatal;
    every other server error, every transfer error and every unrecognised
    error is fatal, so [isCriticalError] returns [true] exactly in those
    cases. *)
Theorem isCriticalError_classification (e : Errors.t) :
  (Errors.class e = Errors.FileOpenError -> Classify.isCriticalError e = false) /\
  (forall code, Errors.class e = Errors.ServerResponseError ->
     Errors.httpCode e = Some code ->
     (code = 400 \/ code = 404 \/ code = 409)%Z ->
     Classify.isCriticalError e = false) /\
  (forall code, Errors.class e = Errors.ServerResponseError ->
     Errors.httpCode e = Some code ->
     (code <> 400 /\ code <> 404 /\ code <> 409)%Z ->
     Classify.isCriticalError e = true) /\
  (Errors.class e = Errors.FileUploadError -> Classify.isCriticalError e = true) /\
  (Errors.class e = Errors.Error \/ Errors.class e = Errors.FileError ->
     Classify.isCriticalError e = true) /\
  (Classify.isCriticalError e = true <->
     Errors.class e <> Errors.FileOpenError /\
     ~ (Errors.class e = Errors.ServerResponseError /\
        exists code, Errors.httpCode e = Some code /\
                     (code = 400 \/ code = 404 \/ code = 409)%Z)).
Proof.
  assert (Hcodes : forall code : Z,
      ((code =? Classify.BAD_REQUEST)%Z || (code =? Classify.NOT_FOUND)%Z
       || (code =? Classify.CONFLICT)%Z = true)
      <-> (code = 400 \/ code = 404 \/ code = 409)%Z).
  { intros code. unfold Classify.BAD_REQUEST, Classify.NOT_FOUND, Classify.CONFLICT.
    rewrite !orb_true_iff, !Z.eqb_eq. tauto. }
  destruct e as [c m p h]; unfold Classify.isCriticalError, Errors.instanceof; simpl.
  split; [intros ->; reflexivity|].
  split.
  { intros code -> -> Hc; simpl. apply Hcodes in Hc. now rewrite Hc. }
  split.
  { intros code -> -> (H1 & H2 & H3); simpl.
    destruct (_ || _) eqn:E; [|reflexivity].
    apply Hcodes in E. lia. }
  split; [intros ->; reflexivity|].
  split; [intros [-> | ->]; reflexivity|].
  destruct c; simpl; try (split; [intros _; split; [discriminate|intros [? _]; discriminate]|reflexivity]).
  - split; [discriminate|intros [H _]; congruence].
  - destruct h as [code|].
    + destruct (_ || _) eqn:E.
      * split; [discriminate|]. intros [_ H]. exfalso. apply H.
        split; [reflexivity|]. exists code. split; [reflexivity|]. now apply Hcodes.
      * split; [|reflexivity]. intros _. split; [discriminate|].
        intros [_ (code' & [= <-] & Hc)]. apply Hcodes in Hc. congruence.
    + split; [|reflexivity]. intros _. split; [discriminate|].
      intros [_ (code' & [=] & _)].
Qed.

(** ** The signature *)

Lemma ascii_compare_trans_lt a b c :
  Ascii.compare a b = Lt -> Ascii.compare b c = Lt -> Ascii.compare a c = Lt.
Proof.
  unfold Ascii.compare. rewrite !N.compare_lt_iff. lia.
Qed.

Lemma string_compare_refl s : String.compare s s = Eq.
Proof.
  induction s as [|a s IH]; simpl; [reflexivity|].
  unfold Ascii.compare. now rewrite N.compare_refl.
Qed.

Lemma string_compare_lt_trans s1 : forall s2 s3,
  String.compare s1 s2 = Lt -> String.compare s2 s3 = Lt -> String.compare s1 s3 = Lt.
Proof.
  induction s1 as [|a s1 IH]; intros [|b s2] [|c s3]; simpl; try congruence.
  destruct (Ascii.compare a b) eqn:Eab; try discriminate.
  - apply Ascii.compare_eq_iff in Eab; subst b.
    destruct (Ascii.compare a c) eqn:Eac; try congruence.
    apply IH.
  - intros _. destruct (Ascii.compare b c) eqn:Ebc; try discriminate.
    + apply Ascii.compare_eq_iff in Ebc; subst c. now rewrite Eab.
    + intros _. now rewrite (ascii_compare_trans_lt _ _ _ Eab Ebc).
Qed.

Lemma str_le_alt a b : Uploader.str_le a b <-> a = b \/ String.compare a b = Lt.
Proof.
  unfold Uploader.str_le, String.leb. split.
  - destruct (String.compare a b) eqn:E; try discriminate; intros _.
    + left. now apply String.compare_eq_iff.
    + now right.
  - intros [-> | ->]; [now rewrite string_compare_refl | reflexivity].
Qed.

#[local] Instance str_le_trans : Transitive Uploader.str_le.
Proof.
  intros a b c. rewrite !str_le_alt. intros [-> | Hab] [-> | Hbc]; auto.
  right. eapply string_compare_lt_trans; eauto.
Qed.

#[local] Instance str_le_antisym : AntiSymm (=) Uploader.str_le.
Proof. intros a b. apply String.leb_antisym. Qed.

#[local] Instance str_le_total : Total Uploader.str_le.
Proof. intros a b. apply String.leb_total. Qed.

Lemma sort_sorted l : Sorted Uploader.str_le (Uploader.sort l).
Proof. apply Sorted_merge_sort; apply _. Qed.

Lemma sort_permutation_eq l1 l2 :
  l1 ≡ₚ l2 -> Uploader.sort l1 = Uploader.sort l2.
Proof.
  intros H. apply (Sorted_unique Uploader.str_le); try apply sort_sorted.
  unfold Uploader.sort. now rewrite !merge_sort_Permutation.
Qed.

Lemma filter_permutation {A} (f : A -> bool) l1 l2 :
  l1 ≡ₚ l2 -> List.filter f l1 ≡ₚ List.filter f l2.
Proof.
  induction 1 as [|x l l' _ IH|x y l|l l' l'' _ IH1 _ IH2]; simpl.
  - constructor.
  - destruct (f x); [now constructor | exact IH].
  - destruct (f x), (f y); try reflexivity. constructor.
  - now transitivity (List.filter f l').
Qed.

(** C9. The signature is a function of the parameters and the secret alone,
    and it does not depend on the order of the parameter object's keys: two
    parameter objects holding the same key/value pairs, in any order, get the
    same signature under the same secret. *)
Theorem generateSignature_order_independent
    (sha256_hex : string -> string) (self : Uploader.t) (p1 p2 : Js.Obj) :
  p1 ≡ₚ p2 ->
  Uploader.generateSignature sha256_hex self p1
  = Uploader.generateSignature sha256_hex self p2.
Proof.
  intros H. unfold Uploader.generateSignature, Uploader.paramsToSign.
  do 3 f_equal. apply sort_permutation_eq.
  apply Permutation_map. now apply filter_permutation.
Qed.

Lemma generateSignature_order_independent_witness :
  [ ("timestamp", Js.VInt 1700000000); ("folder", Js.VStr "pets") ]
    ≡ₚ [ ("folder", Js.VStr "pets"); ("timestamp", Js.VInt 1700000000) ] /\
  Uploader.generateSignature (fun s => s) Samples.uploader
    [ ("timestamp", Js.VInt 1700000000); ("folder", Js.VStr "pets") ]
  = Uploader.generateSignature (fun s => s) Samples.uploader
      [ ("folder", Js.VStr "pets"); ("timestamp", Js.VInt 1700000000) ].
Proof.
  split; [apply perm_swap|].
  apply generateSignature_order_independent. apply perm_swap.
Defined.

(** The string that is hashed, on an example: entries sorted, joined by [&],
    array values joined by commas. *)
Example paramsToSign_example :
  Uploader.paramsToSign
    [ ("timestamp", Js.VInt 1700000000); ("public_id", Js.VStr "cat");
      ("tags", Js.VArr [Js.VStr "a"; Js.VStr "b"]); ("folder", Js.VStr "pets") ]
  = "folder=pets&public_id=cat&tags=a,b&timestamp=1700000000".
Proof. reflexivity. Qed.

(** ** The chunked upload *)

Section ChunkUploadFacts.

Import ChunkUpload.

Variable sha256_hex : string -> string.
Variable self : Uploader.t.
Variable url : string.
Variable options : Options.
Variable uploadId : Z.

Abbreviation handle := (ChunkUpload.handle sha256_hex self url options uploadId).
Abbreviation run := (fold_left handle).

Lemma settle_fields o st :
  start (settle o st) = start st /\ end_ (settle o st) = end_ st /\
  fileSize (settle o st) = fileSize st /\ requests (settle o st) = requests st.
Proof. unfold settle. destruct (outcome st); simpl; auto. Qed.

Lemma onReply_fields reply st :
  end_ (onReply url reply st) = end_ st /\
  fileSize (onReply url reply st) = fileSize st /\
  requests (onReply url reply st) = requests st.
Proof.
  destruct reply; simpl.
  - destruct (_ <=? _)%Z; [|auto]. pose proof (settle_fields (Resolved data) st). tauto.
  - set (st1 := settle _ st).
    pose proof (settle_fields
      (Rejected (Errors.newServerResponseError message url status)) st) as H1.
    pose proof (settle_fields
      (Rejected (Errors.newFileUploadError message url)) st1) as H2.
    subst st1. destruct H1 as (_ & E1 & F1 & R1), H2 as (_ & E2 & F2 & R2).
    rewrite E2, F2, R2, E1, F1, R1. auto.
  - pose proof (settle_fields (Rejected (Errors.newFileUploadError message url)) st).
    tauto.
Qed.

(** The offsets and the requests after a run of events: only ['data']
    events move them, each by one chunk. *)
Lemma run_ranges events : forall st,
  rangeOf <$> requests (run events st)
  = (rangeOf <$> requests st) ++ ranges (end_ st) (byteLength <$> dataChunks events)
  /\ end_ (run events st)
     = (end_ st + foldr Z.add 0 (byteLength <$> dataChunks events))%Z.
Proof.
  induction events as [|ev events IH]; intros st; simpl.
  - rewrite app_nil_r. split; [reflexivity | lia].
  - destruct (IH (handle st ev)) as [IHr IHe]. rewrite IHr, IHe. clear IH IHr IHe.
    destruct ev; simpl.
    + pose proof (settle_fields
        (Rejected (Errors.newFileOpenError message url)) st) as (_ & -> & _ & ->).
      auto.
    + auto.
    + auto.
    + rewrite fmap_app, <- app_assoc. simpl. split; [reflexivity | symmetry; apply Z.add_assoc].
    + auto.
    + destruct (requests st !! i); [|auto].
      destruct (onReply_fields reply st) as (-> & _ & ->). auto.
Qed.

(** While [stat] does not resolve again, [fileSize] keeps its value and every
    new request carries it in its header. *)
Lemma run_headers events : forall st,
  forallb (fun ev => negb (isStat ev)) events = true ->
  Forall (fun r => rqContentRange r
                   = byteHeaderRange (rqStart r) (rqEnd r) (fileSize st))
         (requests st) ->
  Forall (fun r => rqContentRange r
                   = byteHeaderRange (rqStart r) (rqEnd r) (fileSize st))
         (requests (run events st)).
Proof.
  induction events as [|ev events IH]; intros st Hs Hr; simpl; [exact Hr|].
  simpl in Hs. apply andb_true_iff in Hs as [Hev Hs].
  assert (fileSize (handle st ev) = fileSize st /\
          Forall (fun r => rqContentRange r
                   = byteHeaderRange (rqStart r) (rqEnd r) (fileSize st))
                 (requests (handle st ev))) as [Hf Hr'].
  { destruct ev; simpl in *; try discriminate; auto.
    - pose proof (settle_fields
        (Rejected (Errors.newFileOpenError message url)) st) as (_ & _ & -> & ->).
      auto.
    - split; [reflexivity|]. apply Forall_app. split; [exact Hr|].
      constructor; [reflexivity | constructor].
    - destruct (requests st !! i); [|auto].
      destruct (onReply_fields reply st) as (_ & -> & ->). auto. }
  rewrite <- Hf. apply IH; [exact Hs | now rewrite Hf].
Qed.

End ChunkUploadFacts.

Lemma ranges_length from lens : length (ChunkUpload.ranges from lens) = length lens.
Proof. revert from. induction lens; intros; simpl; auto. Qed.

Lemma ranges_lookup lens : forall from i s e,
  ChunkUpload.ranges from lens !! i = Some (s, e) ->
  s = (from + foldr Z.add 0 (take i lens))%Z /\
  exists len, lens !! i = Some len /\ e = (s + len)%Z.
Proof.
  induction lens as [|len lens IH]; intros from i s e; simpl; [discriminate|].
  destruct i as [|i]; simpl.
  - intros [= <- <-]. split; [lia|]. eauto.
  - intros H. apply IH in H as [-> H]. split; [lia | exact H].
Qed.

Lemma ranges_last lens : forall from s e,
  last (ChunkUpload.ranges from lens) = Some (s, e) ->
  e = (from + foldr Z.add 0 lens)%Z.
Proof.
  induction lens as [|len lens IH]; intros from s e; simpl; [discriminate|].
  destruct lens as [|len' lens].
  - simpl. intros [= <- <-]. lia.
  - intros H. change (last (ChunkUpload.ranges (from + len) (len' :: lens)) = Some (s, e)) in H.
    apply IH in H. simpl in *. lia.
Qed.

Lemma ranges_cover lens : forall from b,
  Forall (fun len => 0 <= len)%Z lens ->
  (from <= b < from + foldr Z.add 0 lens)%Z ->
  exists i s e, ChunkUpload.ranges from lens !! i = Some (s, e) /\ (s <= b < e)%Z.
Proof.
  induction lens as [|len lens IH]; intros from b Hpos Hb; simpl in *; [lia|].
  inversion Hpos as [|? ? Hlen Hpos']; subst.
  destruct (Z_lt_dec b (from + len)) as [Hlt|Hge].
  - exists 0%nat, from, (from + len)%Z. split; [reflexivity | lia].
  - destruct (IH (from + len)%Z b Hpos') as (i & s & e & Hi & Hse); [lia|].
    exists (S i), s, e. split; [exact Hi | exact Hse].
Qed.

Lemma ranges_start_ge lens from i s e :
  Forall (fun len => 0 <= len)%Z lens ->
  ChunkUpload.ranges from lens !! i = Some (s, e) -> (from <= s)%Z.
Proof.
  intros Hpos H. apply ranges_lookup in H as [-> _].
  assert (0 <= foldr Z.add 0 (take i lens))%Z; [|lia].
  assert (Hp : Forall (fun len => 0 <= len)%Z (take i lens)) by now apply Forall_take.
  induction Hp; simpl; lia.
Qed.

Lemma ranges_disjoint lens : forall from i j s e s' e' b,
  Forall (fun len => 0 <= len)%Z lens ->
  ChunkUpload.ranges from lens !! i = Some (s, e) ->
  ChunkUpload.ranges from lens !! j = Some (s', e') ->
  (s <= b < e)%Z -> (s' <= b < e')%Z -> i = j.
Proof.
  induction lens as [|len lens IH]; intros from i j s e s' e' b Hpos Hi Hj Hb Hb';
    simpl in *; [discriminate|].
  inversion Hpos as [|? ? Hlen Hpos']; subst.
  destruct i as [|i], j as [|j]; simpl in *.
  - reflexivity.
  - injection Hi as <- <-. apply ranges_start_ge in Hj; [lia | exact Hpos'].
  - injection Hj as <- <-. apply ranges_start_ge in Hi; [lia | exact Hpos'].
  - f_equal. eapply IH; eauto.
Qed.

(** The schedule on which [stat] resolves before the first chunk is read.
    A file of size [totalSize] that the stream delivers as [k] chunks leads
    to exactly [k] requests; the first range starts at 0, every later range
    starts where the previous one ends, each range is as long as its chunk
    and is sent as the header [bytes start-(end-1)/totalSize]; the end
    computed for the last request is [totalSize]; and every byte offset of
    [0, totalSize) lies in the range of exactly one request. *)
Theorem chunkUpload_ranges_cover_file
    (sha256_hex : string -> string) (self : Uploader.t) (url : string)
    (options : ChunkUpload.Options) (uploadId : Z)
    (totalSize : Z) (events : list ChunkUpload.StreamEvent) :
  let chunks := ChunkUpload.dataChunks events in
  let reqs :=
    ChunkUpload.requests
      (ChunkUpload.chunkUpload sha256_hex self url options uploadId
         (ChunkUpload.StreamOpen :: ChunkUpload.StatResolved totalSize :: events)) in
  forallb (fun ev => negb (ChunkUpload.isStat ev)) events = true ->
  ChunkUpload.totalBytes chunks = totalSize ->
  length reqs = length chunks /\
  (forall r, reqs !! 0%nat = Some r -> ChunkUpload.rqStart r = 0%Z) /\
  (forall i r r', reqs !! i = Some r -> reqs !! S i = Some r' ->
     ChunkUpload.rqStart r' = ChunkUpload.rqEnd r) /\
  (forall i r, reqs !! i = Some r ->
     exists chunk, chunks !! i = Some chunk /\
       ChunkUpload.rqEnd r = (ChunkUpload.rqStart r + ChunkUpload.byteLength chunk)%Z /\
       ChunkUpload.rqContentRange r
       = "bytes " +:+ Js.showZ (ChunkUpload.rqStart r) +:+ "-"
         +:+ Js.showZ (ChunkUpload.rqEnd r - 1) +:+ "/" +:+ Js.showZ totalSize) /\
  (forall r, last reqs = Some r -> ChunkUpload.rqEnd r = totalSize) /\
  (forall b, (0 <= b < totalSize)%Z ->
     exists i r, reqs !! i = Some r /\
       (ChunkUpload.rqStart r <= b < ChunkUpload.rqEnd r)%Z /\
       forall j r', reqs !! j = Some r' ->
         (ChunkUpload.rqStart r' <= b < ChunkUpload.rqEnd r')%Z -> j = i).
Proof.
  intros chunks reqs Hstat Htotal.
  set (st1 := {| ChunkUpload.start := 0; ChunkUpload.end_ := 0;
                 ChunkUpload.fileSize := totalSize;
                 ChunkUpload.requests := []; ChunkUpload.outcome := None |}).
  assert (Hreqs : reqs = ChunkUpload.requests
            (fold_left (ChunkUpload.handle sha256_hex self url options uploadId)
               events st1)) by reflexivity.
  set (lens := ChunkUpload.byteLength <$> chunks).
  assert (Hpos : Forall (fun len => 0 <= len)%Z lens).
  { subst lens. apply Forall_fmap, Forall_forall. intros c _.
    unfold ChunkUpload.byteLength. simpl. lia. }
  destruct (run_ranges sha256_hex self url options uploadId events st1) as [Hr _].
  rewrite <- Hreqs in Hr. simpl in Hr. fold chunks in Hr. fold lens in Hr.
  pose proof (run_headers sha256_hex self url options uploadId events st1 Hstat
                (Forall_nil_2 _)) as Hh.
  rewrite <- Hreqs in Hh. simpl in Hh.
  assert (Hlook : forall i r, reqs !! i = Some r ->
            ChunkUpload.ranges 0 lens !! i
            = Some (ChunkUpload.rqStart r, ChunkUpload.rqEnd r)).
  { intros i r Hi. rewrite <- Hr, list_lookup_fmap, Hi. reflexivity. }
  assert (Hlen : length reqs = length chunks).
  { rewrite <- (length_fmap ChunkUpload.rangeOf reqs), Hr, ranges_length.
    subst lens. apply length_fmap. }
  split; [exact Hlen|].
  split.
  { intros r H0. apply Hlook, ranges_lookup in H0 as [H0 _]. simpl in H0. lia. }
  split.
  { intros i r r' Hi Hi'.
    apply Hlook, ranges_lookup in Hi as [Hs (len & Hl & He)].
    apply Hlook, ranges_lookup in Hi' as [Hs' _].
    rewrite Hs', (take_S_r _ _ _ Hl), foldr_app. simpl.
    rewrite He, Hs. clear.
    generalize (take i lens) as l. induction l as [|x l IH]; simpl; lia. }
  split.
  { intros i r Hi. pose proof Hi as Hi'.
    apply Hlook, ranges_lookup in Hi as [_ (len & Hl & He)].
    subst lens. rewrite list_lookup_fmap in Hl.
    destruct (chunks !! i) as [chunk|] eqn:Hc; [|discriminate].
    injection Hl as <-. exists chunk. split; [reflexivity|]. split; [exact He|].
    apply list_elem_of_lookup_2 in Hi'.
    rewrite Forall_forall in Hh. exact (Hh r Hi'). }
  split.
  { intros r Hl.
    assert (Hl' : last (ChunkUpload.ranges 0 lens)
                  = Some (ChunkUpload.rqStart r, ChunkUpload.rqEnd r)).
    { rewrite <- Hr, fmap_last, Hl. reflexivity. }
    apply ranges_last in Hl'. rewrite Hl'. rewrite <- Htotal. reflexivity. }
  intros b Hb.
  destruct (ranges_cover lens 0 b Hpos) as (i & s & e & Hi & Hse).
  { rewrite <- Htotal in Hb. exact Hb. }
  assert (Hi' : (ChunkUpload.rangeOf <$> reqs) !! i = Some (s, e)) by now rewrite Hr.
  rewrite list_lookup_fmap in Hi'.
  destruct (reqs !! i) as [r|] eqn:Hri; [|discriminate].
  injection Hi' as <- <-.
  exists i, r. split; [exact Hri|]. split; [exact Hse|].
  intros j r' Hj Hb'. apply Hlook in Hj.
  exact (ranges_disjoint lens 0 j i _ _ _ _ b Hpos Hj Hi Hb' Hse).
Qed.

Lemma chunkUpload_ranges_cover_file_witness :
  forallb (fun ev => negb (ChunkUpload.isStat ev)) Samples.chunkedEvents = true /\
  ChunkUpload.totalBytes (ChunkUpload.dataChunks Samples.chunkedEvents) = 5%Z /\
  length (ChunkUpload.requests
            (ChunkUpload.chunkUpload (fun s => s) (Uploader.mk "key" "secret" "demo")
               "img/cat.png" (ChunkUpload.Build_Options 120000 []) 1700000000000
               (ChunkUpload.StreamOpen :: ChunkUpload.StatResolved 5 :: Samples.chunkedEvents)))
  = 2%nat.
Proof.
  split; [reflexivity|]. split; [reflexivity|].
  apply (chunkUpload_ranges_cover_file (fun s => s) (Uploader.mk "key" "secret" "demo")
           "img/cat.png" (ChunkUpload.Build_Options 120000 []) 1700000000000
           5 Samples.chunkedEvents); reflexivity.
Defined.

(** The byte ranges do not depend on the schedule. Whenever [stat] resolves,
    and whatever else happens, a file that the stream delivers as [k] chunks
    summing to [totalSize] leads to exactly [k] requests; the first range
    starts at 0, every later range starts where the previous one ends, each
    range is as long as its chunk; the end computed for the last request is
    [totalSize]; and every byte offset of [0, totalSize) lies in the range of
    exactly one request. *)
Lemma chunkUpload_ranges_on_every_schedule
    (sha256_hex : string -> string) (self : Uploader.t) (url : string)
    (options : ChunkUpload.Options) (uploadId : Z)
    (totalSize : Z) (events : list ChunkUpload.StreamEvent) :
  let chunks := ChunkUpload.dataChunks events in
  let reqs :=
    ChunkUpload.requests
      (ChunkUpload.chunkUpload sha256_hex self url options uploadId events) in
  ChunkUpload.totalBytes chunks = totalSize ->
  length reqs = length chunks /\
  (forall r, reqs !! 0%nat = Some r -> ChunkUpload.rqStart r = 0%Z) /\
  (forall i r r', reqs !! i = Some r -> reqs !! S i = Some r' ->
     ChunkUpload.rqStart r' = ChunkUpload.rqEnd r) /\
  (forall i r, reqs !! i = Some r ->
     exists chunk, chunks !! i = Some chunk /\
       ChunkUpload.rqEnd r = (ChunkUpload.rqStart r + ChunkUpload.byteLength chunk)%Z) /\
  (forall r, last reqs = Some r -> ChunkUpload.rqEnd r = totalSize) /\
  (forall b, (0 <= b < totalSize)%Z ->
     exists i r, reqs !! i = Some r /\
       (ChunkUpload.rqStart r <= b < ChunkUpload.rqEnd r)%Z /\
       forall j r', reqs !! j = Some r' ->
         (ChunkUpload.rqStart r' <= b < ChunkUpload.rqEnd r')%Z -> j = i).
Proof.
  intros chunks reqs Htotal.
  set (lens := ChunkUpload.byteLength <$> chunks).
  assert (Hpos : Forall (fun len => 0 <= len)%Z lens).
  { subst lens. apply Forall_fmap, Forall_forall. intros c _.
    unfold ChunkUpload.byteLength. simpl. lia. }
  assert (Hr : ChunkUpload.rangeOf <$> reqs = ChunkUpload.ranges 0 lens).
  { subst reqs. unfold ChunkUpload.chunkUpload.
    now destruct (run_ranges sha256_hex self url options uploadId events
                    ChunkUpload.initial) as [-> _]. }
  assert (Hlook : forall i r, reqs !! i = Some r ->
            ChunkUpload.ranges 0 lens !! i
            = Some (ChunkUpload.rqStart r, ChunkUpload.rqEnd r)).
  { intros i r Hi. rewrite <- Hr, list_lookup_fmap, Hi. reflexivity. }
  split.
  { rewrite <- (length_fmap ChunkUpload.rangeOf reqs), Hr, ranges_length.
    subst lens. apply length_fmap. }
  split.
  { intros r H0. apply Hlook, ranges_lookup in H0 as [H0 _]. simpl in H0. lia. }
  split.
  { intros i r r' Hi Hi'.
    apply Hlook, ranges_lookup in Hi as [Hs (len & Hl & He)].
    apply Hlook, ranges_lookup in Hi' as [Hs' _].
    rewrite Hs', (take_S_r _ _ _ Hl), foldr_app. simpl.
    rewrite He, Hs. clear.
    generalize (take i lens) as l. induction l as [|x l IH]; simpl; lia. }
  split.
  { intros i r Hi.
    apply Hlook, ranges_lookup in Hi as [_ (len & Hl & He)].
    subst lens. rewrite list_lookup_fmap in Hl.
    destruct (chunks !! i) as [chunk|] eqn:Hc; [|discriminate].
    injection Hl as <-. exists chunk. split; [reflexivity | exact He]. }
  split.
  { intros r Hl.
    assert (Hl' : last (ChunkUpload.ranges 0 lens)
                  = Some (ChunkUpload.rqStart r, ChunkUpload.rqEnd r)).
    { rewrite <- Hr, fmap_last, Hl. reflexivity. }
    apply ranges_last in Hl'. rewrite Hl'. rewrite <- Htotal. reflexivity. }
  intros b Hb.
  destruct (ranges_cover lens 0 b Hpos) as (i & s & e & Hi & Hse).
  { rewrite <- Htotal in Hb. exact Hb. }
  assert (Hi' : (ChunkUpload.rangeOf <$> reqs) !! i = Some (s, e)) by now rewrite Hr.
  rewrite list_lookup_fmap in Hi'.
  destruct (reqs !! i) as [r|] eqn:Hri; [|discriminate].
  injection Hi' as <- <-.
  exists i, r. split; [exact Hri|]. split; [exact Hse|].
  intros j r' Hj Hb'. apply Hlook in Hj.
  exact (ranges_disjoint lens 0 j i _ _ _ _ b Hpos Hj Hi Hb' Hse).
Qed.

(** Once the promise of [chunkUpload] is settled, no later event changes its
    outcome. *)
Lemma chunkUpload_outcome_stable sha256_hex self url options uploadId events :
  forall st o,
    ChunkUpload.outcome st = Some o ->
    ChunkUpload.outcome
      (fold_left (ChunkUpload.handle sha256_hex self url options uploadId) events st)
    = Some o.
Proof.
  assert (Hs : forall o' st o, ChunkUpload.outcome st = Some o ->
                 ChunkUpload.outcome (ChunkUpload.settle o' st) = Some o).
  { intros o' st o H. unfold ChunkUpload.settle. now rewrite H. }
  induction events as [|ev events IH]; intros st o Ho; simpl; [exact Ho|].
  apply IH. destruct ev; simpl; auto.
  destruct (ChunkUpload.requests st !! i); [|exact Ho].
  destruct reply; simpl; auto.
  destruct (_ <=? _)%Z; auto.
Qed.

(** C1 (the code when the chunk is read before [stat] has resolved). The
    ['open'] handler starts [stat] and awaits it while the stream goes on to
    read: nothing orders the resolution of [stat] before the first ['data']
    event, and [fileSize] is 0 until then. For a file of 3 bytes, read as the
    one chunk [abc] before [stat] resolves, the request covers [0, 3) as
    claimed but is sent with the header [bytes 0-2/0]; when [stat] resolves
    first the header is [bytes 0-2/3]. Whatever the chunk, a request built
    before [stat] resolves gives the total as 0. *)
Theorem chunkUpload_header_total_before_stat
    (sha256_hex : string -> string) (self : Uploader.t) (url : string)
    (options : ChunkUpload.Options) (uploadId : Z) :
  let chunkUpload := ChunkUpload.chunkUpload sha256_hex self url options uploadId in
  let dataFirst :=
    [ ChunkUpload.StreamOpen;
      ChunkUpload.StreamData "abc" 1700000000400;
      ChunkUpload.StatResolved 3;
      ChunkUpload.StreamEnd ] in
  let statFirst :=
    [ ChunkUpload.StreamOpen;
      ChunkUpload.StatResolved 3;
      ChunkUpload.StreamData "abc" 1700000000400;
      ChunkUpload.StreamEnd ] in
  ChunkUpload.dataChunks dataFirst = ["abc"] /\
  ChunkUpload.totalBytes (ChunkUpload.dataChunks dataFirst) = 3%Z /\
  ChunkUpload.rangeOf <$> ChunkUpload.requests (chunkUpload dataFirst) = [(0, 3)%Z] /\
  ChunkUpload.rqContentRange <$> ChunkUpload.requests (chunkUpload dataFirst)
  = ["bytes 0-2/0"] /\
  ChunkUpload.rqContentRange <$> ChunkUpload.requests (chunkUpload statFirst)
  = ["bytes 0-2/3"] /\
  (forall chunk nowMs,
     ChunkUpload.rqContentRange <$>
       ChunkUpload.requests
         (chunkUpload [ChunkUpload.StreamOpen; ChunkUpload.StreamData chunk nowMs])
     = ["bytes 0-" +:+ Js.showZ (ChunkUpload.byteLength chunk - 1) +:+ "/0"]).
Proof.
  intros chunkUpload dataFirst statFirst.
  repeat split; reflexivity.
Qed.

(** C6 (the code at an empty file). The stream of an empty file opens, [stat]
    resolves with size 0 and the stream ends without a ['data'] event: no
    request is sent and the promise is left pending, so the call has no
    terminal outcome. *)
Theorem chunkUpload_empty_file_never_settles
    (sha256_hex : string -> string) (self : Uploader.t) (url : string)
    (options : ChunkUpload.Options) (uploadId : Z) :
  let st := ChunkUpload.chunkUpload sha256_hex self url options uploadId
              [ChunkUpload.StreamOpen; ChunkUpload.StatResolved 0; ChunkUpload.StreamEnd] in
  ChunkUpload.outcome st = None /\ ChunkUpload.requests st = [].
Proof. split; reflexivity. Qed.

(** The promise is resolved by the first reply that arrives once every chunk
    has been read, whichever request it answers; a later failure of another
    chunk finds the promise settled. *)
Lemma chunkUpload_resolves_on_first_reply
    (sha256_hex : string -> string) (self : Uploader.t) (url : string)
    (options : ChunkUpload.Options) (uploadId : Z) :
  ChunkUpload.outcome
    (ChunkUpload.chunkUpload sha256_hex self url options uploadId
       [ ChunkUpload.StreamOpen; ChunkUpload.StatResolved 5;
         ChunkUpload.StreamData "abc" 1700000000400;
         ChunkUpload.StreamData "de" 1700000000600;
         ChunkUpload.StreamEnd;
         ChunkUpload.Replied 0 (ChunkUpload.ReplyOk "part");
         ChunkUpload.Replied 1 (ChunkUpload.ReplyFailure "timeout") ])
  = Some (ChunkUpload.Resolved "part").
Proof. reflexivity. Qed.

(** ** The log writes of a batch *)

Section LogWrites.

Import Coordinator Invariants.

Variable env : Env.
Variable uploader : Uploader.t.
Variable options : UploadOptions.

Abbreviation h := (hasErrorFile options).

Abbreviation preserves := (Invariants.preserves h).

Lemma preserves_ret {A} (a : A) : preserves (ret a).
Proof. intros w H. exact H. Qed.

Lemma preserves_throw {A} e : preserves (@throw A e).
Proof. intros w H. exact H. Qed.

Lemma preserves_bind {A B} (m : M A) (k : A -> M B) :
  preserves m -> (forall a, preserves (k a)) -> preserves (bind m k).
Proof.
  intros Hm Hk w Hw. unfold bind. specialize (Hm w Hw).
  destruct (m w) as [[a|e] w']; simpl in *; [now apply Hk | exact Hm].
Qed.

Lemma preserves_emit e s p : preserves (emit e s p).
Proof. intros w H. exact H. Qed.

Lemma preserves_recordHead u : preserves (recordHead u).
Proof. intros w H. exact H. Qed.

Lemma preserves_logError msg : preserves (logError env options msg).
Proof.
  intros w [Hc Hp]. unfold logError, bind, enqueueWrite, counted. fold h.
  destruct h; simpl.
  - destruct (appendOk env msg); simpl; rewrite ?length_app; simpl.
    + split; [lia|]. rewrite Hp. solve_Permutation.
    + split; [lia|]. rewrite Hp. solve_Permutation.
  - rewrite length_app. simpl. split; [lia | exact Hp].
Qed.

Lemma preserves_logErrorStart msg : preserves (logErrorStart options msg).
Proof.
  intros w [Hc Hp]. unfold logErrorStart, bind, enqueueWrite, counted. fold h.
  destruct h; simpl; rewrite ?length_app; simpl.
  - split; [lia|]. rewrite Hp. solve_Permutation.
  - split; [lia | exact Hp].
Qed.

Lemma preserves_filterPredicate f :
  preserves (filterPredicate env uploader options f).
Proof.
  unfold filterPredicate.
  apply preserves_bind.
  - destruct (ImageValidator.isValidImage _ _ _) as [v|e].
    + apply preserves_ret.
    + apply preserves_bind; [apply preserves_emit|]. intros _.
      apply preserves_bind; [apply preserves_logError|]. intros _.
      apply preserves_ret.
  - intros imgRes. apply preserves_bind.
    + destruct imgRes as [[| |]|]; try apply preserves_ret.
      apply preserves_bind; [apply preserves_emit|]. intros _.
      apply preserves_logError.
    + intros _. destruct imgRes as [[| |]|]; try apply preserves_ret.
      destruct (ignoreFileExistCheck options); [apply preserves_ret|].
      apply preserves_bind.
      * unfold identifier. destruct (List.find _ _);
          [apply preserves_ret | apply preserves_throw].
      * intros o. apply preserves_bind; [|intros; apply preserves_ret].
        unfold checkExists.
        apply preserves_bind; [apply preserves_recordHead|]. intros _.
        apply preserves_ret.
Qed.

Lemma preserves_asyncFilter arr :
  preserves (asyncFilter arr (filterPredicate env uploader options)).
Proof.
  induction arr as [|value rest IH]; simpl; [apply preserves_ret|].
  intros w Hw. pose proof (preserves_filterPredicate value w Hw) as H1.
  destruct (filterPredicate env uploader options value w) as [[keep|e] w1]; simpl in *.
  - specialize (IH w1 H1).
    destruct (asyncFilter rest _ w1) as [[kept|e] w2]; simpl in *; exact IH.
  - exact (IH w1 H1).
Qed.

Lemma preserves_preUpload : preserves (preUpload env uploader options).
Proof.
  unfold preUpload. apply preserves_bind.
  - unfold openErrorFile. destruct (errorFilename _); [|apply preserves_ret].
    destruct (_ && _); [apply preserves_throw | apply preserves_ret].
  - intros _. apply preserves_bind.
    + unfold candidates. destruct (specificFiles options); [apply preserves_ret|].
      destruct (readdir env _); [apply preserves_ret | apply preserves_throw].
    + intros arr. apply preserves_asyncFilter.
Qed.

Lemma counted_world0 : counted h world0.
Proof. unfold counted. simpl. destruct h; auto. Qed.

Lemma upload_batchInv b0 :
  upload env uploader options = Runs b0 -> batchInv options b0.
Proof.
  unfold upload. pose proof (preserves_preUpload world0 counted_world0) as H.
  destruct (preUpload env uploader options world0) as [[filenames|e] w]; [|discriminate].
  intros [= <-]. split; [exact H|]. split; [intros Hp; now elim Hp | discriminate].
Qed.

Lemma counted_callback fileURL response error sh :
  counted h (world sh) ->
  counted h (world (callback env options fileURL response error sh)).
Proof.
  intros Hw. unfold callback.
  destruct error as [err|]; [|exact Hw].
  destruct (negb (signalAborted sh)); [|exact Hw].
  destruct (Classify.isCriticalError err); simpl;
    apply (preserves_bind _ _ (preserves_emit _ _ _)
             (fun _ => preserves_logErrorStart _)); exact Hw.
Qed.

Lemma allExited_no_step (p : BulkUpload.State Shared) l :
  BulkUpload.allExited p = true -> poolStep env options p l = None.
Proof.
  unfold BulkUpload.allExited. rewrite forallb_forall. intros Hall.
  assert (Hw : forall w x, BulkUpload.workers p !! w = Some x -> x = BulkUpload.Exited).
  { intros w x Hx. apply list_elem_of_lookup_2, list_elem_of_In, Hall in Hx.
    destruct x; congruence. }
  unfold poolStep, BulkUpload.step.
  destruct l as [w|w r]; destruct (BulkUpload.workers p !! w) as [x|] eqn:E;
    try reflexivity; apply Hw in E; subst x; reflexivity.
Qed.

Lemma counted_no_pending w :
  counted h w -> writeCount w = 0%Z ->
  pendingWrites w = [] /\ failedWrites w = [] /\ enqueued w ≡ₚ logFile w.
Proof.
  intros [Hc Hp] H0. rewrite H0 in Hc.
  assert (length (pendingWrites w) = 0%nat) as Hl1 by lia.
  assert (length (failedWrites w) = 0%nat) as Hl2 by lia.
  apply nil_length_inv in Hl1, Hl2. rewrite Hl1, Hl2 in *.
  split; [reflexivity|]. split; [reflexivity|].
  destruct h.
  - now rewrite !app_nil_r in Hp.
  - destruct Hp as (-> & _). simpl in Hc.
    assert (length (enqueued w) = 0%nat) as Hl3 by lia.
    apply nil_length_inv in Hl3. now rewrite Hl3.
Qed.

Lemma step_batchInv b l b' :
  batchInv options b -> step env options b l = Some b' -> batchInv options b'.
Proof.
  intros (Hw & Hs & Hc) Hstep.
  destruct l as [pl|i|i|]; simpl in Hstep.
  - (* a worker moves: only possible while the pool runs *)
    destruct (poolStep env options (pool b) pl) as [p|] eqn:Hp; [|discriminate].
    injection Hstep as <-.
    assert (Hph : phase b = Uploading).
    { destruct (phase b) eqn:E; [reflexivity| |];
        (rewrite allExited_no_step in Hp; [discriminate|]; apply Hs; rewrite E; discriminate). }
    split; [|split].
    + unfold batchWorld in *. simpl. unfold poolStep, BulkUpload.step in Hp.
      destruct pl as [w|w r]; destruct (BulkUpload.workers (pool b) !! w) as [[| |]|];
        try discriminate.
      * destruct (BulkUpload.cursor (pool b)); [injection Hp as <-; exact Hw|].
        destruct (signalAborted _); injection Hp as <-; exact Hw.
      * injection Hp as <-.
        destruct r as [data|error].
        -- exact (counted_callback fileURL (Some data) None _ Hw).
        -- exact (counted_callback fileURL None (Some error) _ Hw).
    + intros Hne. simpl in Hne. congruence.
    + simpl. congruence.
  - (* a write succeeds *)
    destruct (pendingWrites (batchWorld b) !! i) as [msg|] eqn:Hi; [|discriminate].
    injection Hstep as <-.
    assert (Hh : h = true).
    { destruct Hw as [_ Hp]. destruct h; [reflexivity|].
      destruct Hp as (_ & Hp & _). rewrite Hp in Hi. discriminate. }
    assert (Hw' : counted h (snd (completeWrite msg (dropPending i (batchWorld b))))).
    { destruct Hw as [Hn Hp]. unfold counted in *. rewrite Hh in *. simpl.
      pose proof (lookup_lt_Some _ _ _ Hi) as Hlt.
      rewrite length_delete by eauto. split; [lia|].
      rewrite Hp. rewrite (delete_Permutation _ _ _ Hi) at 1.
      solve_Permutation. }
    split; [exact Hw'|]. split.
    + intros Hne. simpl in *. apply Hs. intros E. rewrite E in Hne. now apply Hne.
    + simpl. destruct (phase b) eqn:E; try discriminate.
      * destruct (Z.eqb_spec (writeCount (batchWorld b) - 1) 0); [auto | discriminate].
      * intros _. specialize (Hc eq_refl).
        destruct (counted_no_pending _ Hw Hc) as (Hp & _). rewrite Hp in Hi. discriminate.
  - (* a write fails *)
    destruct (pendingWrites (batchWorld b) !! i) as [msg|] eqn:Hi; [|discriminate].
    injection Hstep as <-.
    assert (Hh : h = true).
    { destruct Hw as [_ Hp]. destruct h; [reflexivity|].
      destruct Hp as (_ & Hp & _). rewrite Hp in Hi. discriminate. }
    split; [|split].
    + destruct Hw as [Hn Hp]. unfold counted in *. rewrite Hh in *. simpl.
      pose proof (lookup_lt_Some _ _ _ Hi) as Hlt.
      rewrite length_delete by eauto. rewrite length_app. simpl. split; [lia|].
      rewrite Hp. rewrite (delete_Permutation _ _ _ Hi) at 1.
      solve_Permutation.
    + exact Hs.
    + simpl. intros E. specialize (Hc E).
      destruct (counted_no_pending _ Hw Hc) as (Hp & _). rewrite Hp in Hi. discriminate.
  - (* the pool has settled *)
    destruct (phase b) eqn:E; try discriminate.
    destruct (BulkUpload.allExited (pool b)) eqn:Hall; [|discriminate].
    injection Hstep as <-. split; [exact Hw|]. split; [intros _; exact Hall|].
    simpl. change (world (BulkUpload.shared (pool b))) with (batchWorld b).
    destruct (Z.ltb_spec 0 (writeCount (batchWorld b))); [discriminate|].
    intros _. destruct Hw as [Hn _]. unfold batchWorld in *. simpl. lia.
Qed.

Lemma run_batchInv labels : forall b b',
  batchInv options b -> run env options b labels = Some b' -> batchInv options b'.
Proof.
  induction labels as [|l labels IH]; intros b b' Hb; simpl.
  - now intros [= <-].
  - destruct (step env options b l) as [b1|] eqn:Hs; [|discriminate].
    apply IH. eapply step_batchInv; eauto.
Qed.

Lemma closed_no_step b l :
  batchInv options b -> phase b = Closed -> step env options b l = None.
Proof.
  intros (Hw & Hs & Hc) Hph.
  destruct (counted_no_pending _ Hw (Hc Hph)) as (Hp & _).
  destruct l as [pl|i|i|]; simpl.
  - rewrite allExited_no_step; [reflexivity|]. apply Hs. congruence.
  - now rewrite Hp.
  - now rewrite Hp.
  - now rewrite Hph.
Qed.

End LogWrites.

(** C3. In every run of a batch (one [upload] call at a time on a
    coordinator, whose emitter carries [END_WRITE]), the error file is closed
    only when no log write is outstanding: at that point the counter is
    zero, no write is in flight or failed, and the file holds every message
    handed to [logError] exactly once. Nothing happens to the batch after the
    file is closed. *)
Theorem log_closed_after_all_writes
    (env : Coordinator.Env) (uploader : Uploader.t)
    (options : Coordinator.UploadOptions)
    (b0 b : Coordinator.Batch) (labels : list Coordinator.Label) :
  Coordinator.upload env uploader options = Coordinator.Runs b0 ->
  Coordinator.run env options b0 labels = Some b ->
  Coordinator.phase b = Coordinator.Closed ->
  Coordinator.writeCount (Coordinator.batchWorld b) = 0%Z /\
  Coordinator.pendingWrites (Coordinator.batchWorld b) = [] /\
  Coordinator.failedWrites (Coordinator.batchWorld b) = [] /\
  Coordinator.enqueued (Coordinator.batchWorld b)
    ≡ₚ Coordinator.logFile (Coordinator.batchWorld b) /\
  (forall l, Coordinator.step env options b l = None).
Proof.
  intros H0 Hrun Hclosed.
  pose proof (run_batchInv env options labels b0 b
                (upload_batchInv env uploader options b0 H0) Hrun) as Hinv.
  pose proof Hinv as (Hw & _ & Hc).
  destruct (counted_no_pending options _ Hw (Hc Hclosed)) as (Hp & Hf & Hperm).
  repeat split; auto.
  intros l. now apply (closed_no_step env options).
Qed.

Lemma log_closed_after_all_writes_witness :
  exists b0 b,
    Coordinator.upload Samples.env Samples.uploader Samples.twoFiles
      = Coordinator.Runs b0 /\
    Coordinator.run Samples.env Samples.twoFiles b0 Samples.abortedRun = Some b /\
    Coordinator.phase b = Coordinator.Closed /\
    length (Coordinator.logFile (Coordinator.batchWorld b)) = 1%nat /\
    Coordinator.enqueued (Coordinator.batchWorld b)
      ≡ₚ Coordinator.logFile (Coordinator.batchWorld b).
Proof.
  eexists _, _.
  split; [vm_compute; reflexivity|].
  split; [vm_compute; reflexivity|].
  split; [reflexivity|].
  split; [reflexivity|].
  eapply (log_closed_after_all_writes Samples.env Samples.uploader Samples.twoFiles
            _ _ Samples.abortedRun); vm_compute; reflexivity.
Defined.

(** ** The pre-upload filter *)

Section Filter.

Import Coordinator.

Variable env : Env.
Variable uploader : Uploader.t.
Variable options : UploadOptions.

Abbreviation verdict f :=
  (ImageValidator.isValidImage (fs env) (allowedFileTypes options)
     (imgDir options +:+ f)).

(** The predicate holds only for files the validator found valid. *)
Lemma filterPredicate_true f w w' :
  filterPredicate env uploader options f w = (Ok true, w') ->
  verdict f = inl ImageValidator.VALID.
Proof.
  unfold filterPredicate, bind.
  destruct (verdict f) as [[| |]|e]; simpl; try discriminate; try reflexivity.
  - destruct (logError env options _ _) as [[[]|?] ?]; simpl; discriminate.
  - destruct (logError env options _ _) as [[[]|?] ?]; simpl; discriminate.
Qed.

Lemma asyncFilter_kept arr : forall w kept w' f,
  asyncFilter arr (filterPredicate env uploader options) w = (Ok kept, w') ->
  f ∈ kept -> verdict f = inl ImageValidator.VALID.
Proof.
  induction arr as [|value rest IH]; intros w kept w' f; simpl.
  - intros [= <- <-] Hin. inversion Hin.
  - destruct (filterPredicate env uploader options value w) as [[keep|e] w1] eqn:Hp.
    + destruct (asyncFilter rest _ w1) as [[kept'|e] w2] eqn:Hr; [|discriminate].
      intros [= <- <-] Hin. destruct keep.
      * apply elem_of_cons in Hin as [-> | Hin]; [|eauto].
        eapply filterPredicate_true; eauto.
      * eauto.
    + discriminate.
Qed.

(** The existence check as written: with a valid file and no bypass the
    predicate throws before any request is made. *)
Lemma filterPredicate_valid_throws f w :
  verdict f = inl ImageValidator.VALID ->
  ignoreFileExistCheck options = false ->
  filterPredicate env uploader options f w
  = (Throw (Js.ReferenceError "apiOptions is not defined"), w).
Proof.
  intros Hv Hi. unfold filterPredicate, bind. rewrite Hv. simpl. rewrite Hi.
  reflexivity.
Qed.

End Filter.

(** C10. A candidate file whose verdict is [NOT_ALLOWED] is dropped without a
    trace: the predicate answers [false] and leaves the shared state as it
    was (no notification, no log write, no remote request), and the file is
    not among the filenames handed to the pool. *)
Theorem not_allowed_file_dropped_silently
    (env : Coordinator.Env) (uploader : Uploader.t)
    (options : Coordinator.UploadOptions) (f : string) :
  ImageValidator.isValidImage (Coordinator.fs env)
    (Coordinator.allowedFileTypes options) (Coordinator.imgDir options +:+ f)
  = inl ImageValidator.NOT_ALLOWED ->
  (forall w, Coordinator.filterPredicate env uploader options f w
             = (Coordinator.Ok false, w)) /\
  (forall arr w kept w',
     Coordinator.asyncFilter arr (Coordinator.filterPredicate env uploader options) w
     = (Coordinator.Ok kept, w') -> f ∉ kept).
Proof.
  intros Hv. split.
  - intros w. unfold Coordinator.filterPredicate, Coordinator.bind. rewrite Hv.
    reflexivity.
  - intros arr w kept w' Hf Hin.
    pose proof (asyncFilter_kept env uploader options arr w kept w' f Hf Hin) as Hv'.
    rewrite Hv in Hv'. discriminate.
Qed.

(** The verdict is [NOT_ALLOWED] exactly for an extension outside a
    non-empty list of allowed types. *)
Lemma isValidImage_not_allowed fs allowableTypes filename :
  ImageValidator.isValidImage fs allowableTypes filename = inl ImageValidator.NOT_ALLOWED
  <-> allowableTypes <> [] /\
      ImageValidator.includes allowableTypes
        (ImageValidator.getFileExtension filename) = false.
Proof.
  unfold ImageValidator.isValidImage.
  destruct allowableTypes as [|t ts]; simpl.
  - split; [|intros [H _]; now elim H].
    destruct (match ImageValidator.getFileExtension filename with
              | Some e => _ | None => _ end); [|discriminate].
    destruct (fs filename); [|discriminate].
    destruct (existsb _ _); discriminate.
  - destruct (ImageValidator.includes (t :: ts) _) eqn:E; simpl.
    + split; [|intros [_ H]; discriminate].
      destruct (match ImageValidator.getFileExtension filename with
                | Some e => _ | None => _ end); [|discriminate].
      destruct (fs filename); [|discriminate].
      destruct (existsb _ _); discriminate.
    + split; auto.
Qed.

Lemma not_allowed_file_dropped_silently_witness :
  ImageValidator.isValidImage (Coordinator.fs Samples.env) ["png"; "jpg"]
    "img/notes.txt" = inl ImageValidator.NOT_ALLOWED /\
  Coordinator.filterPredicate Samples.env Samples.uploader
    (Samples.batchOf ["notes.txt"] ["png"; "jpg"] (Some "errors.log") [])
    "notes.txt" Coordinator.world0
  = (Coordinator.Ok false, Coordinator.world0).
Proof.
  split; [reflexivity|].
  apply (not_allowed_file_dropped_silently Samples.env Samples.uploader
           (Samples.batchOf ["notes.txt"] ["png"; "jpg"] (Some "errors.log") [])
           "notes.txt").
  reflexivity.
Defined.

(** C5 (the code at a valid file with the existence check in force). The
    call of [upload] is rejected with a [ReferenceError] and no existence
    query has been made. *)
Theorem existence_check_throws_ReferenceError :
  exists w,
    Coordinator.upload Samples.env Samples.uploader Samples.validWithCheck
    = Coordinator.Rejects (Js.ReferenceError "apiOptions is not defined") w /\
    Coordinator.headRequests w = [] /\
    Coordinator.emitted w = [].
Proof. eexists. split; [vm_compute; reflexivity|]. split; reflexivity. Qed.

(** C4 (the code at an invalid file when no error file is configured). The
    call of [upload] is rejected with a [TypeError] although the error file
    was not asked for, after the error notification for the file. *)
Theorem upload_rejects_on_invalid_file_without_log :
  exists w,
    Coordinator.upload Samples.env Samples.uploader Samples.invalidWithoutLog
    = Coordinator.Rejects
        (Js.TypeError "Cannot read properties of undefined (reading 'then')") w /\
    Coordinator.event <$> Coordinator.emitted w = [Coordinator.UPLOAD_ERROR] /\
    Coordinator.writeCount w = 1%Z.
Proof. eexists. split; [vm_compute; reflexivity|]. split; reflexivity. Qed.

(** C7 (the code after a critical error). The second file's upload fails
    once the signal is aborted, and the callback emits [UPLOAD_SUCCESS] for
    it with no response; nothing is logged for it. *)
Theorem success_emitted_for_failed_upload_after_abort :
  exists b0 b,
    Coordinator.upload Samples.env Samples.uploader Samples.twoFiles
      = Coordinator.Runs b0 /\
    Coordinator.run Samples.env Samples.twoFiles b0 Samples.abortedRun = Some b /\
    Coordinator.emitted (Coordinator.batchWorld b)
    = [ Coordinator.notify Coordinator.UPLOAD_CRITICAL "img/a.raw"
          (Coordinator.PError Samples.unauthorized);
        Coordinator.notify Coordinator.UPLOAD_SUCCESS "img/b.raw"
          (Coordinator.PResponse None);
        Coordinator.notify Coordinator.END_WRITE EmptyString Coordinator.PNone ] /\
    length (Coordinator.enqueued (Coordinator.batchWorld b)) = 1%nat.
Proof.
  eexists _, _.
  split; [vm_compute; reflexivity|].
  split; [vm_compute; reflexivity|].
  split; reflexivity.
Qed.

(** The callback in general: an error that arrives after the signal is
    aborted is reported as a success. *)
Lemma callback_after_abort env options fileURL error w :
  Coordinator.callback env options fileURL None (Some error)
    {| Coordinator.world := w; Coordinator.signalAborted := true |}
  = {| Coordinator.world :=
         snd (Coordinator.emit Coordinator.UPLOAD_SUCCESS fileURL
                (Coordinator.PResponse None) w);
       Coordinator.signalAborted := true |}.
Proof. reflexivity. Qed.

(** ** The worker pool *)

Section PoolFacts.

Import BulkUpload Invariants.

Variable Shared : Type.
Variable aborted : Shared -> bool.
Variable callback :
  option (string -> option string -> option Errors.t -> Shared -> Shared).
Variable imgDir : string.
Variable timeout : option Z.
Variable optionalParams : Js.Obj.

Abbreviation pstep := (step Shared aborted callback imgDir timeout optionalParams).
Abbreviation prun := (run Shared aborted callback imgDir timeout optionalParams).

Abbreviation poolInv := (Invariants.poolInv imgDir).

Lemma begin_poolInv filenames sh : poolInv filenames (begin Shared filenames sh).
Proof.
  unfold poolInv, begin, numRequests. simpl. rewrite length_replicate.
  split; [reflexivity|]. split; [reflexivity|]. constructor.
Qed.

Lemma step_poolInv filenames st l st' :
  poolInv filenames st -> pstep st l = Some st' -> poolInv filenames st'.
Proof.
  intros (Hw & Hc & Hs). unfold step, poolInv.
  destruct l as [w|w result]; destruct (workers st !! w) as [[| |]|]; try discriminate.
  - destruct (cursor st) as [|filename rest] eqn:Ecur.
    + intros [= <-]. simpl. rewrite length_insert. auto.
    + destruct (aborted (shared st)); intros [= <-]; simpl;
        rewrite length_insert, !fmap_app, <- app_assoc; simpl;
        (split; [exact Hw|]); (split; [exact Hc|]).
      * now apply sublist_inserts_r.
      * apply sublist_app; [exact Hs | reflexivity].
  - intros [= <-]. simpl. rewrite length_insert. auto.
Qed.

Lemma run_poolInv filenames labels : forall st st',
  poolInv filenames st -> prun st labels = Some st' -> poolInv filenames st'.
Proof.
  induction labels as [|l labels IH]; intros st st' Hst; simpl.
  - now intros [= <-].
  - destruct (pstep st l) as [st1|] eqn:E; [|discriminate].
    apply IH. eapply step_poolInv; eauto.
Qed.



End PoolFacts.




(** ** What the callback and the filter do when nothing goes wrong around them *)

(** Before the signal is aborted the callback reports each outcome once: a
    non-critical error as [UPLOAD_ERROR] with one log entry of its message, a
    critical one as [UPLOAD_CRITICAL] with the distinguishing entry and the
    abort, a success as [UPLOAD_SUCCESS] with the response. *)
Lemma callback_before_abort env options fileURL w :
  let sh := {| Coordinator.world := w; Coordinator.signalAborted := false |} in
  (forall data,
     let sh' := Coordinator.callback env options fileURL (Some data) None sh in
     Coordinator.emitted (Coordinator.world sh')
     = Coordinator.emitted w
       ++ [Coordinator.notify Coordinator.UPLOAD_SUCCESS fileURL
             (Coordinator.PResponse (Some data))]
     /\ Coordinator.enqueued (Coordinator.world sh') = Coordinator.enqueued w
     /\ Coordinator.signalAborted sh' = false) /\
  (forall error, Classify.isCriticalError error = false ->
     let sh' := Coordinator.callback env options fileURL None (Some error) sh in
     Coordinator.emitted (Coordinator.world sh')
     = Coordinator.emitted w
       ++ [Coordinator.notify Coordinator.UPLOAD_ERROR fileURL (Coordinator.PError error)]
     /\ Coordinator.enqueued (Coordinator.world sh')
        = Coordinator.enqueued w
          ++ [Errors.toString error +:+ Coordinator.lineSeparator env options]
     /\ Coordinator.signalAborted sh' = false) /\
  (forall error, Classify.isCriticalError error = true ->
     let sh' := Coordinator.callback env options fileURL None (Some error) sh in
     Coordinator.emitted (Coordinator.world sh')
     = Coordinator.emitted w
       ++ [Coordinator.notify Coordinator.UPLOAD_CRITICAL fileURL
             (Coordinator.PError error)]
     /\ Coordinator.enqueued (Coordinator.world sh')
        = Coordinator.enqueued w
          ++ ["Aborting upload process due to critical error: "
              +:+ Errors.toString error]
     /\ Coordinator.signalAborted sh' = true).
Proof.
  intros sh. split; [|split].
  - intros data. repeat split.
  - intros error Hc. unfold Coordinator.callback. simpl. rewrite Hc.
    unfold Coordinator.logErrorStart, Coordinator.bind. simpl.
    destruct (Coordinator.hasErrorFile options); repeat split.
  - intros error Hc. unfold Coordinator.callback. simpl. rewrite Hc.
    unfold Coordinator.logErrorStart, Coordinator.bind. simpl.
    destruct (Coordinator.hasErrorFile options); repeat split.
Qed.

(** The two error events are distinct symbols although they were created
    with the same description. *)
Lemma critical_event_distinct :
  Coordinator.UPLOAD_CRITICAL <> Coordinator.UPLOAD_ERROR /\
  Coordinator.description Coordinator.UPLOAD_CRITICAL
  = Coordinator.description Coordinator.UPLOAD_ERROR.
Proof. split; [discriminate | reflexivity]. Qed.

(** With an error file that accepts every write and the existence check
    bypassed, no file makes the filter throw. *)
Lemma filterPredicate_no_throw env uploader options f w :
  Coordinator.hasErrorFile options = true ->
  (forall msg, Coordinator.appendOk env msg = true) ->
  Coordinator.ignoreFileExistCheck options = true ->
  exists keep w', Coordinator.filterPredicate env uploader options f w
                  = (Coordinator.Ok keep, w').
Proof.
  intros Hh Ha Hi.
  unfold Coordinator.filterPredicate, Coordinator.bind, Coordinator.logError,
    Coordinator.bind.
  destruct (ImageValidator.isValidImage _ _ _) as [[| |]|e]; simpl;
    rewrite ?Hh, ?Ha, ?Hi; simpl; eauto.
Qed.

Lemma asyncFilter_no_throw env uploader options arr :
  Coordinator.hasErrorFile options = true ->
  (forall msg, Coordinator.appendOk env msg = true) ->
  Coordinator.ignoreFileExistCheck options = true ->
  forall w, exists kept w',
    Coordinator.asyncFilter arr (Coordinator.filterPredicate env uploader options) w
    = (Coordinator.Ok kept, w').
Proof.
  intros Hh Ha Hi. induction arr as [|value rest IH]; intros w; simpl.
  - unfold Coordinator.ret. eauto.
  - destruct (filterPredicate_no_throw env uploader options value w Hh Ha Hi)
      as (keep & w1 & ->).
    destruct (IH w1) as (kept & w2 & ->). eauto.
Qed.

(** * Further properties of the code *)

Import Observations.

(** ** Filenames: extension and public name *)

Lemma lastIndexOf_None_iff c s :
  Js.lastIndexOf c s = None <-> ~ In c (String.list_ascii_of_string s).
Proof.
  induction s as [|a s IH]; simpl; [tauto|].
  destruct (Js.lastIndexOf c s) as [i|].
  - split; [discriminate|]. intros H. exfalso. apply H. right.
    destruct (in_dec Ascii.ascii_dec c (String.list_ascii_of_string s)) as [Hin|Hn];
      [exact Hin|].
    apply IH in Hn. discriminate.
  - destruct (Ascii.eqb_spec a c) as [->|Hne].
    + split; [discriminate|]. intros H. exfalso. apply H. now left.
    + split; [|reflexivity]. intros _ [H|H]; [congruence|]. now apply IH.
Qed.

Lemma lastIndexOf_app_last c base rest :
  ~ In c (String.list_ascii_of_string rest) ->
  Js.lastIndexOf c (base +:+ String c rest) = Some (String.length base).
Proof.
  intros Hn. induction base as [|a base IH]; simpl.
  - apply lastIndexOf_None_iff in Hn. rewrite Hn. now rewrite Ascii.eqb_refl.
  - now rewrite IH.
Qed.

Lemma lastIndexOf_split c s : forall i,
  Js.lastIndexOf c s = Some i ->
  exists base rest,
    s = base +:+ String c rest /\ String.length base = i /\
    ~ In c (String.list_ascii_of_string rest).
Proof.
  induction s as [|a s IH]; simpl; [discriminate|]. intros i.
  destruct (Js.lastIndexOf c s) as [j|] eqn:E.
  - intros [= <-]. destruct (IH j eq_refl) as (base & rest & -> & <- & Hn).
    exists (String a base), rest. auto.
  - destruct (Ascii.eqb_spec a c) as [->|Hne]; [|discriminate].
    intros [= <-]. exists EmptyString, s. repeat split.
    now apply lastIndexOf_None_iff.
Qed.

Lemma substring_app_first a b :
  String.substring 0 (String.length a) (a +:+ b) = a.
Proof.
  induction a as [|c a IH]; simpl.
  - now destruct b.
  - now rewrite IH.
Qed.

Lemma substring_whole s : String.substring 0 (String.length s) s = s.
Proof. induction s as [|c s IH]; simpl; [reflexivity | now rewrite IH]. Qed.

Lemma length_append a b :
  String.length (a +:+ b) = (String.length a + String.length b)%nat.
Proof. induction a as [|c a IH]; simpl; [reflexivity | now rewrite IH]. Qed.

Lemma substringFrom_app a c b :
  Js.substringFrom (String.length a + 1) (a +:+ String c b) = b.
Proof.
  unfold Js.substringFrom. rewrite length_append. simpl.
  replace (String.length a + S (String.length b) - (String.length a + 1))%nat
    with (String.length b) by lia.
  induction a as [|x a IH]; simpl; [apply substring_whole | exact IH].
Qed.

Lemma getFileExtension_Some_iff (filename ext : string) :
  ImageValidator.getFileExtension filename = Some ext <->
  ext <> EmptyString /\
  ~ In "."%char (String.list_ascii_of_string ext) /\
  exists base, filename = base +:+ "." +:+ ext.
Proof.
  unfold ImageValidator.getFileExtension. split.
  - destruct (Js.lastIndexOf "." filename) as [i|] eqn:E; [|discriminate].
    destruct (lastIndexOf_split _ _ _ E) as (base & rest & -> & <- & Hn).
    rewrite substringFrom_app.
    destruct (String.eqb_spec rest EmptyString) as [->|Hne]; [discriminate|].
    intros [= <-]. split; [exact Hne|]. split; [exact Hn|]. now exists base.
  - intros (Hne & Hn & base & ->).
    change (base +:+ "." +:+ ext) with (base +:+ String "." ext).
    rewrite (lastIndexOf_app_last _ _ _ Hn), substringFrom_app.
    destruct (String.eqb_spec ext EmptyString) as [->|_]; [now elim Hne | reflexivity].
Qed.

(** X1. [getFileExtension] answers [ext] exactly for the names of the form
    [base.ext] with [ext] non-empty and free of dots: the extension is what
    follows the last dot, and a name without a dot or ending in a dot has
    none. *)
Theorem getFileExtension_spec (filename ext : string) :
  ImageValidator.getFileExtension filename = Some ext <->
  ext <> EmptyString /\
  ~ In "."%char (String.list_ascii_of_string ext) /\
  exists base, filename = base +:+ "." +:+ ext.
Proof. apply getFileExtension_Some_iff. Qed.

(** X2. The public name and the extension split a filename: when
    [getFileExtension] finds [ext], the filename is the public name, a dot
    and [ext]; a filename without a dot has no extension and an empty public
    name. *)
Theorem publicName_extension_split (filename : string) :
  (forall ext, ImageValidator.getFileExtension filename = Some ext ->
     filename = BulkUpload.publicName filename +:+ "." +:+ ext) /\
  (~ In "."%char (String.list_ascii_of_string filename) ->
     ImageValidator.getFileExtension filename = None /\
     BulkUpload.publicName filename = EmptyString).
Proof.
  split.
  - intros ext H. apply getFileExtension_Some_iff in H as (_ & Hn & base & ->).
    unfold BulkUpload.publicName.
    change (base +:+ "." +:+ ext) with (base +:+ String "." ext).
    rewrite (lastIndexOf_app_last _ _ _ Hn).
    unfold Js.substringTo. now rewrite substring_app_first.
  - intros Hn. apply lastIndexOf_None_iff in Hn.
    unfold ImageValidator.getFileExtension, BulkUpload.publicName. rewrite Hn.
    split; [reflexivity|]. unfold Js.substringTo. now destruct filename.
Qed.

(** ** The validator *)

Lemma tableGet_In ext : forall table magicNums,
  ImageValidator.tableGet ext table = Some magicNums ->
  In (ext, magicNums) table.
Proof.
  induction table as [|[k v] table IH]; simpl; [discriminate|]. intros magicNums.
  destruct (String.eqb_spec ext k) as [->|_].
  - intros [= <-]. now left.
  - intros H. right. now apply IH.
Qed.

(** Within one entry of the table all magic numbers have the length of the
    first, an even, positive number of hexadecimal digits. *)
Lemma magicNumTable_uniform ext magicNums magic :
  ImageValidator.tableGet ext ImageValidator.magicNumTable = Some magicNums ->
  In magic magicNums ->
  String.length magic = String.length (hd EmptyString magicNums) /\
  (0 < String.length magic)%nat /\
  ImageValidator.lowerString magic = magic.
Proof.
  intros H Hin. apply tableGet_In in H. unfold ImageValidator.magicNumTable in H.
  simpl in H.
  repeat (destruct H as [ [= <- <-] | H];
          [simpl in Hin; repeat (destruct Hin as [<-|Hin]; [simpl; repeat split; lia|]);
           now elim Hin|]).
  now elim H.
Qed.

Lemma hexOfBytes_length bytes :
  String.length (ImageValidator.hexOfBytes bytes) = (2 * String.length bytes)%nat.
Proof. induction bytes as [|c bytes IH]; simpl; [reflexivity | rewrite IH; lia]. Qed.

(** X3. The validator answers [INVALID] or rejects only for a filename whose
    extension is one of the supported types; a rejection is a
    [FileOpenError] for that file, raised because it could not be read. For
    every other filename the file is not read at all. *)
Theorem isValidImage_reads_supported_types_only
    (fs : string -> ImageValidator.ReadResult) (allowableTypes : list string)
    (filename : string) :
  (ImageValidator.isValidImage fs allowableTypes filename = inl ImageValidator.INVALID ->
     exists ext content,
       ImageValidator.getFileExtension filename = Some ext /\
       In ext SupportedTypes.getSupportedTypes /\ fs filename = ImageValidator.ReadOk content) /\
  (forall error, ImageValidator.isValidImage fs allowableTypes filename = inr error ->
     exists ext message,
       ImageValidator.getFileExtension filename = Some ext /\
       In ext SupportedTypes.getSupportedTypes /\
       fs filename = ImageValidator.ReadError message /\
       error = Errors.newFileOpenError message filename) /\
  ((forall ext, ImageValidator.getFileExtension filename = Some ext ->
      ~ In ext SupportedTypes.getSupportedTypes) ->
   forall fs', ImageValidator.isValidImage fs' allowableTypes filename
               = ImageValidator.isValidImage fs allowableTypes filename).
Proof.
  assert (Hsup : forall ext ms,
            ImageValidator.tableGet ext ImageValidator.magicNumTable = Some ms ->
            In ext SupportedTypes.getSupportedTypes).
  { intros ext ms H. apply tableGet_In in H.
    unfold SupportedTypes.getSupportedTypes. apply in_map_iff. now exists (ext, ms). }
  unfold ImageValidator.isValidImage.
  destruct (_ && _); [repeat split; try discriminate; reflexivity|].
  destruct (ImageValidator.getFileExtension filename) as [ext|];
    [|repeat split; try discriminate; reflexivity].
  destruct (ImageValidator.tableGet ext ImageValidator.magicNumTable) as [ms|] eqn:Et;
    [|repeat split; try discriminate; reflexivity].
  split; [|split].
  - destruct (fs filename) as [content|message] eqn:Ef; [|discriminate].
    intros _. exists ext, content. eauto.
  - intros error. destruct (fs filename) as [content|message] eqn:Ef.
    + destruct (existsb _ _); discriminate.
    + intros [= <-]. exists ext, message. eauto 6.
  - intros Hn. exfalso. apply (Hn ext eq_refl). eauto.
Qed.

(** X4. A readable file of a supported type that starts with the bytes of one
    of the magic numbers of its extension is [VALID], whatever follows those
    bytes, provided its extension is allowed. *)
Theorem isValidImage_magic_prefix
    (fs : string -> ImageValidator.ReadResult) (allowableTypes : list string)
    (filename ext magic bytes rest : string) (magicNums : list string) :
  ImageValidator.getFileExtension filename = Some ext ->
  allowableTypes = [] \/ ImageValidator.includes allowableTypes (Some ext) = true ->
  ImageValidator.tableGet ext ImageValidator.magicNumTable = Some magicNums ->
  In magic magicNums ->
  ImageValidator.hexOfBytes bytes = magic ->
  fs filename = ImageValidator.ReadOk (bytes +:+ rest) ->
  ImageValidator.isValidImage fs allowableTypes filename = inl ImageValidator.VALID.
Proof.
  intros He Ha Ht Hin Hhex Hfs. unfold ImageValidator.isValidImage.
  rewrite He, Ht, Hfs.
  assert (Hallowed : (0 <? length allowableTypes)%nat
                     && negb (ImageValidator.includes allowableTypes (Some ext)) = false).
  { destruct Ha as [-> | ->]; [reflexivity | apply andb_false_r]. }
  rewrite Hallowed.
  destruct (magicNumTable_uniform ext magicNums magic Ht Hin) as (Hlen & _ & _).
  rewrite <- Hlen, <- Hhex, hexOfBytes_length.
  replace (2 * String.length bytes / 2)%nat with (String.length bytes)
    by (symmetry; rewrite Nat.mul_comm; apply Nat.div_mul; lia).
  unfold Js.substringTo. rewrite substring_app_first, Hhex.
  assert (Hex : existsb (fun magicNum => ImageValidator.sameHex magicNum magic) magicNums
                = true).
  { apply existsb_exists. exists magic. split; [exact Hin|].
    unfold ImageValidator.sameHex. apply String.eqb_refl. }
  now rewrite Hex.
Qed.

Lemma isValidImage_magic_prefix_witness :
  ImageValidator.isValidImage
    (fun _ => ImageValidator.ReadOk ("BM" +:+ "rest of the bitmap"))
    ["bmp"; "png"] "img/logo.bmp"
  = inl ImageValidator.VALID.
Proof.
  apply (isValidImage_magic_prefix _ ["bmp"; "png"] "img/logo.bmp" "bmp" "424d" "BM"
           "rest of the bitmap" ["424d"]).
  - reflexivity.
  - right. reflexivity.
  - reflexivity.
  - now left.
  - reflexivity.
  - reflexivity.
Defined.

(** X5. An empty file with a supported extension is [INVALID] (when its
    extension is allowed): its header is the empty string, which is no magic
    number. *)
Theorem isValidImage_empty_file
    (fs : string -> ImageValidator.ReadResult) (allowableTypes : list string)
    (filename ext : string) :
  ImageValidator.getFileExtension filename = Some ext ->
  allowableTypes = [] \/ ImageValidator.includes allowableTypes (Some ext) = true ->
  In ext SupportedTypes.getSupportedTypes ->
  fs filename = ImageValidator.ReadOk EmptyString ->
  ImageValidator.isValidImage fs allowableTypes filename = inl ImageValidator.INVALID.
Proof.
  intros He Ha Hs Hfs. unfold ImageValidator.isValidImage. rewrite He, Hfs.
  assert (Hallowed : (0 <? length allowableTypes)%nat
                     && negb (ImageValidator.includes allowableTypes (Some ext)) = false).
  { destruct Ha as [-> | ->]; [reflexivity | apply andb_false_r]. }
  rewrite Hallowed.
  destruct (ImageValidator.tableGet ext ImageValidator.magicNumTable) as [ms|] eqn:Et.
  - assert (Hh : ImageValidator.hexOfBytes
                   (Js.substringTo (String.length (hd EmptyString ms) / 2) EmptyString)
                 = EmptyString).
    { unfold Js.substringTo. now destruct (_ / 2)%nat. }
    rewrite Hh.
    assert (Hex : existsb (fun magicNum => ImageValidator.sameHex magicNum EmptyString) ms
                  = false).
    { apply not_true_is_false. intros H. apply existsb_exists in H as (m & Hin & Hm).
      destruct (magicNumTable_uniform ext ms m Et Hin) as (_ & Hpos & Hlow).
      unfold ImageValidator.sameHex in Hm. rewrite Hlow in Hm. simpl in Hm.
      apply String.eqb_eq in Hm. subst m. simpl in Hpos. lia. }
    now rewrite Hex.
  - exfalso. unfold SupportedTypes.getSupportedTypes, ImageValidator.magicNumTable in Hs.
    simpl in Hs.
    repeat (destruct Hs as [<-|Hs]; [discriminate|]). exact Hs.
Qed.

Lemma isValidImage_empty_file_witness :
  ImageValidator.isValidImage (fun _ => ImageValidator.ReadOk EmptyString) []
    "img/blank.png"
  = inl ImageValidator.INVALID.
Proof.
  apply (isValidImage_empty_file _ [] "img/blank.png" "png").
  - reflexivity.
  - now left.
  - simpl. tauto.
  - reflexivity.
Defined.

(** ** The signed string *)

Lemma entryNonEmpty_always p : Uploader.entryNonEmpty p = true.
Proof.
  destruct p as [k v]. unfold Uploader.entryNonEmpty. simpl.
  unfold Js.join. simpl. rewrite length_append. simpl.
  apply Nat.ltb_lt. lia.
Qed.

(** X6. The string that is signed lists every entry of the parameter object:
    the filter before the sort removes nothing (the text of an entry always
    holds a comma), so the signed string is the entries [key=value], all of
    them, in sorted order, joined by [&]. *)
Theorem paramsToSign_signs_every_entry (optionalParams : Js.Obj) :
  exists entries,
    Uploader.paramsToSign optionalParams = Js.join "&" entries /\
    Sorted Uploader.str_le entries /\
    entries ≡ₚ (Uploader.entryToSign <$> optionalParams).
Proof.
  exists (Uploader.sort (Uploader.entryToSign <$> optionalParams)).
  assert (Hf : List.filter Uploader.entryNonEmpty optionalParams = optionalParams).
  { induction optionalParams as [|p ps IH]; simpl; [reflexivity|].
    now rewrite entryNonEmpty_always, IH. }
  unfold Uploader.paramsToSign. rewrite Hf.
  split; [reflexivity|]. split; [apply sort_sorted|].
  unfold Uploader.sort. apply merge_sort_Permutation.
Qed.

(** ** More on the chunked upload *)

Lemma delete_not_in k (o : Js.Obj) : ~ In k (map fst (Js.delete k o)).
Proof.
  unfold Js.delete. intros H. apply in_map_iff in H as ([k' v] & Hk & Hin).
  simpl in Hk. subst k'. apply list_elem_of_In, list_elem_of_filter in Hin as [Hf _].
  simpl in Hf. now rewrite String.eqb_refl in Hf.
Qed.

Section ChunkUploadMore.

Import ChunkUpload.

Variable sha256_hex : string -> string.
Variable self : Uploader.t.
Variable url : string.
Variable options : Options.
Variable uploadId : Z.

Abbreviation handle := (ChunkUpload.handle sha256_hex self url options uploadId).
Abbreviation run := (fold_left handle).

(** A property of requests that every request built by the ['data'] handler
    has holds of all requests sent. *)
Lemma run_requests_Forall (P : Request -> Prop) :
  (forall chunk nowMs st,
     exists r, requests (onData sha256_hex self options uploadId chunk nowMs st)
               = requests st ++ [r] /\ P r) ->
  forall events st, Forall P (requests st) -> Forall P (requests (run events st)).
Proof.
  intros HP. induction events as [|ev events IH]; intros st Hst; simpl; [exact Hst|].
  apply IH. destruct ev; simpl; auto.
  - now destruct (settle_fields (Rejected (Errors.newFileOpenError message url)) st)
      as (_ & _ & _ & ->).
  - destruct (HP chunk nowMs st) as (r & Hr & HPr). unfold onData in Hr.
    simpl in Hr. apply app_inv_head in Hr. injection Hr as <-.
    apply Forall_app. split; [exact Hst|]. constructor; [exact HPr | constructor].
  - destruct (requests st !! i); [|exact Hst].
    now destruct (onReply_fields sha256_hex url reply st) as (_ & _ & ->).
Qed.

Lemma run_outcome_origin events : forall st o,
  outcome (run events st) = Some o ->
  outcome st = Some o \/
  match o with
  | Resolved data => exists i, In (Replied i (ReplyOk data)) events
  | Rejected error =>
      (exists message, In (StreamError message) events /\
                       error = Errors.newFileOpenError message url) \/
      (exists i message status,
         In (Replied i (ReplyStatus message status)) events /\
         error = Errors.newServerResponseError message url status) \/
      (exists i message,
         In (Replied i (ReplyFailure message)) events /\
         error = Errors.newFileUploadError message url)
  end.
Proof.
  assert (Hsettle : forall o' st o,
            outcome (settle o' st) = Some o ->
            outcome st = Some o \/ (outcome st = None /\ o = o')).
  { intros o' st o. unfold settle. destruct (outcome st) eqn:E; simpl.
    - rewrite E. auto.
    - intros [= <-]. now right. }
  assert (Hsome : forall o' st, outcome (settle o' st) <> None).
  { intros o' st. unfold settle. destruct (outcome st) eqn:E; simpl; congruence. }
  induction events as [|ev events IH]; intros st o; simpl; [auto|].
  intros H. apply IH in H as [H|H].
  - destruct ev; simpl in H; auto.
    + apply Hsettle in H as [H|[_ ->]]; [auto|]. right. left. exists message. auto.
    + destruct (requests st !! i); [|auto].
      destruct reply; simpl in H.
      * destruct (_ <=? _)%Z; [|auto].
        apply Hsettle in H as [H|[_ ->]]; [auto|]. right. exists i. now left.
      * apply Hsettle in H as [H|[H _]]; [|now apply Hsome in H].
        apply Hsettle in H as [H|[_ ->]]; [auto|].
        right. right. left. exists i, message, status. auto.
      * apply Hsettle in H as [H|[_ ->]]; [auto|].
        right. right. right. exists i, message. auto.
  - right. destruct o as [data|error].
    + destruct H as (i & Hi). exists i. now right.
    + destruct H as [(m & Hm & ->)|[(i & m & s & Hm & ->)|(i & m & Hm & ->)]].
      * left. exists m. auto.
      * right. left. exists i, m, s. auto.
      * right. right. exists i, m. auto.
Qed.

End ChunkUploadMore.

(** X7. Every chunk the stream delivers is sent, whatever else happens: for
    any sequence of events (before [stat] resolves, after a stream error,
    after a failed reply, after the promise is settled) the requests sent are
    one per chunk read, over consecutive byte ranges starting at 0. *)
Theorem chunkUpload_sends_every_chunk
    (sha256_hex : string -> string) (self : Uploader.t) (url : string)
    (options : ChunkUpload.Options) (uploadId : Z)
    (events : list ChunkUpload.StreamEvent) :
  ChunkUpload.rangeOf
    <$> ChunkUpload.requests
          (ChunkUpload.chunkUpload sha256_hex self url options uploadId events)
  = ChunkUpload.ranges 0
      (ChunkUpload.byteLength <$> ChunkUpload.dataChunks events).
Proof.
  unfold ChunkUpload.chunkUpload.
  now destruct (run_ranges sha256_hex self url options uploadId events
                  ChunkUpload.initial) as [-> _].
Qed.

(** X8. All requests of one call belong to one session and one endpoint:
    each carries the upload id fixed when the call started and the timeout of
    the call, goes to [/auto/upload] of the cloud, and sends the api key, a
    timestamp, and a signature computed over exactly the parameters it sends
    after them; [resource_type] is neither signed nor sent. *)
Theorem chunkUpload_request_fields
    (sha256_hex : string -> string) (self : Uploader.t) (url : string)
    (options : ChunkUpload.Options) (uploadId : Z)
    (events : list ChunkUpload.StreamEvent) :
  Forall
    (fun r =>
       ChunkUpload.rqUploadId r = uploadId /\
       ChunkUpload.rqTimeout r = ChunkUpload.timeout options /\
       ChunkUpload.rqUrl r
       = "https://api.cloudinary.com/v1_1/" +:+ Uploader.cloudName self +:+ "/auto/upload" /\
       exists chunk timestamp params,
         ChunkUpload.rqForm r
         = [ ("file", chunk); ("api_key", Uploader.apiKey self);
             ("timestamp", Js.showZ timestamp);
             ("signature", Uploader.generateSignature sha256_hex self params) ]
           ++ map (fun kv => (fst kv, Js.toString (snd kv))) params /\
         ~ In "resource_type" (map fst params) /\
         ~ In "resource_type" (map fst (ChunkUpload.rqForm r)))
    (ChunkUpload.requests
       (ChunkUpload.chunkUpload sha256_hex self url options uploadId events)).
Proof.
  unfold ChunkUpload.chunkUpload. apply run_requests_Forall; [|constructor].
  intros chunk nowMs st. eexists. split; [reflexivity|]. simpl.
  repeat split.
  eexists chunk, (ChunkUpload.roundSeconds nowMs), _.
  split; [reflexivity|].
  pose proof (delete_not_in "resource_type"
    (Js.spread [("timestamp", Js.VInt (ChunkUpload.roundSeconds nowMs))]
       (ChunkUpload.optionalParams options))) as Hn.
  split; [exact Hn|].
  simpl. intros [H|[H|[H|[H|H]]]]; try discriminate.
  rewrite map_map in H. simpl in H. exact (Hn H).
Qed.

(** X9. The promise of [chunkUpload] settles at most once: an outcome reached
    after some events is the outcome after any further events. *)
Theorem chunkUpload_settles_once
    (sha256_hex : string -> string) (self : Uploader.t) (url : string)
    (options : ChunkUpload.Options) (uploadId : Z)
    (events later : list ChunkUpload.StreamEvent) (o : ChunkUpload.Outcome) :
  ChunkUpload.outcome
    (ChunkUpload.chunkUpload sha256_hex self url options uploadId events) = Some o ->
  ChunkUpload.outcome
    (ChunkUpload.chunkUpload sha256_hex self url options uploadId (events ++ later))
  = Some o.
Proof.
  unfold ChunkUpload.chunkUpload. rewrite fold_left_app.
  apply chunkUpload_outcome_stable.
Qed.

Lemma chunkUpload_settles_once_witness :
  ChunkUpload.outcome
    (ChunkUpload.chunkUpload (fun s => s) Samples.uploader "img/cat.png"
       (ChunkUpload.Build_Options 120000 []) 1700000000000
       ([ ChunkUpload.StreamOpen; ChunkUpload.StatResolved 3;
          ChunkUpload.StreamData "abc" 1700000000400;
          ChunkUpload.Replied 0 (ChunkUpload.ReplyStatus "Bad Request" 400) ]
        ++ [ ChunkUpload.Replied 0 (ChunkUpload.ReplyOk "late");
             ChunkUpload.StreamError "EIO" ]))
  = Some (ChunkUpload.Rejected
            (Errors.newServerResponseError "Bad Request" "img/cat.png" 400)).
Proof.
  apply chunkUpload_settles_once. reflexivity.
Defined.

(** X10. Every outcome has a cause among the events: a resolution carries
    the data of a successful reply, and a rejection is the [FileOpenError] of
    a stream error, the [ServerResponseError] of a reply with a status (with
    that status; the second [reject] of the handler never wins), or the
    [FileUploadError] of a failed request, all for the path of the call. *)
Theorem chunkUpload_outcome_has_cause
    (sha256_hex : string -> string) (self : Uploader.t) (url : string)
    (options : ChunkUpload.Options) (uploadId : Z)
    (events : list ChunkUpload.StreamEvent) (o : ChunkUpload.Outcome) :
  ChunkUpload.outcome
    (ChunkUpload.chunkUpload sha256_hex self url options uploadId events) = Some o ->
  match o with
  | ChunkUpload.Resolved data =>
      exists i, In (ChunkUpload.Replied i (ChunkUpload.ReplyOk data)) events
  | ChunkUpload.Rejected error =>
      (exists message, In (ChunkUpload.StreamError message) events /\
                       error = Errors.newFileOpenError message url) \/
      (exists i message status,
         In (ChunkUpload.Replied i (ChunkUpload.ReplyStatus message status)) events /\
         error = Errors.newServerResponseError message url status) \/
      (exists i message,
         In (ChunkUpload.Replied i (ChunkUpload.ReplyFailure message)) events /\
         error = Errors.newFileUploadError message url)
  end.
Proof.
  intros H. unfold ChunkUpload.chunkUpload in H.
  apply run_outcome_origin in H as [H|H]; [discriminate | exact H].
Qed.

Lemma chunkUpload_outcome_has_cause_witness :
  exists i,
    In (ChunkUpload.Replied i (ChunkUpload.ReplyOk "done"))
       (ChunkUpload.StreamOpen :: ChunkUpload.StatResolved 5 :: Samples.chunkedEvents).
Proof.
  apply (chunkUpload_outcome_has_cause (fun s => s) Samples.uploader "img/cat.png"
           (ChunkUpload.Build_Options 120000 []) 1700000000000
           (ChunkUpload.StreamOpen :: ChunkUpload.StatResolved 5 :: Samples.chunkedEvents)
           (ChunkUpload.Resolved "done")).
  reflexivity.
Defined.

(** X11. Without a ['data'] event and without a stream error the promise
    stays pending and nothing is sent, whatever other events arrive: only a
    chunk or a stream error can lead to an outcome. *)
Theorem chunkUpload_pending_without_data
    (sha256_hex : string -> string) (self : Uploader.t) (url : string)
    (options : ChunkUpload.Options) (uploadId : Z)
    (events : list ChunkUpload.StreamEvent) :
  ChunkUpload.dataChunks events = [] ->
  (forall message, ~ In (ChunkUpload.StreamError message) events) ->
  ChunkUpload.outcome
    (ChunkUpload.chunkUpload sha256_hex self url options uploadId events) = None /\
  ChunkUpload.requests
    (ChunkUpload.chunkUpload sha256_hex self url options uploadId events) = [].
Proof.
  unfold ChunkUpload.chunkUpload.
  assert (H : forall st,
            ChunkUpload.outcome st = None -> ChunkUpload.requests st = [] ->
            ChunkUpload.dataChunks events = [] ->
            (forall message, ~ In (ChunkUpload.StreamError message) events) ->
            let st' := fold_left
                         (ChunkUpload.handle sha256_hex self url options uploadId)
                         events st in
            ChunkUpload.outcome st' = None /\ ChunkUpload.requests st' = []).
  { induction events as [|ev events IH]; intros st Ho Hr Hd He; simpl; [auto|].
    assert (He' : forall message, ~ In (ChunkUpload.StreamError message) events).
    { intros m Hm. apply (He m). now right. }
    destruct ev; simpl in *; try discriminate.
    - exfalso. apply (He message). now left.
    - apply IH; auto.
    - apply IH; auto.
    - apply IH; auto.
    - rewrite Hr. simpl. apply IH; auto. }
  intros Hd He. now apply H.
Qed.

Lemma chunkUpload_pending_without_data_witness :
  ChunkUpload.outcome
    (ChunkUpload.chunkUpload (fun s => s) Samples.uploader "img/empty.raw"
       (ChunkUpload.Build_Options 120000 []) 1700000000000
       [ ChunkUpload.StreamOpen; ChunkUpload.StreamEnd; ChunkUpload.StatResolved 0;
         ChunkUpload.Replied 0 (ChunkUpload.ReplyOk "stray") ]) = None /\
  ChunkUpload.requests
    (ChunkUpload.chunkUpload (fun s => s) Samples.uploader "img/empty.raw"
       (ChunkUpload.Build_Options 120000 []) 1700000000000
       [ ChunkUpload.StreamOpen; ChunkUpload.StreamEnd; ChunkUpload.StatResolved 0;
         ChunkUpload.Replied 0 (ChunkUpload.ReplyOk "stray") ]) = [].
Proof.
  apply chunkUpload_pending_without_data; [reflexivity|].
  intros message [H|[H|[H|[H|H]]]]; try discriminate. exact H.
Defined.

(** X12. How a pending upload fails, and what the coordinator makes of it.
    A stream error rejects with [FileOpenError], never critical: this needs
    no request to have been sent (a file that cannot be opened sends none).
    For a request that has been sent, a reply with an HTTP status rejects
    with [ServerResponseError] of that status, critical unless the status is
    400, 404 or 409; a request that fails otherwise rejects with
    [FileUploadError], always critical. *)
Theorem chunkUpload_rejection_severity
    (sha256_hex : string -> string) (self : Uploader.t) (url : string)
    (options : ChunkUpload.Options) (uploadId : Z)
    (events : list ChunkUpload.StreamEvent) :
  let chunkUpload := ChunkUpload.chunkUpload sha256_hex self url options uploadId in
  ChunkUpload.outcome (chunkUpload events) = None ->
  (forall message,
     ChunkUpload.outcome (chunkUpload (events ++ [ChunkUpload.StreamError message]))
     = Some (ChunkUpload.Rejected (Errors.newFileOpenError message url)) /\
     Classify.isCriticalError (Errors.newFileOpenError message url) = false) /\
  (forall i message status,
     (i < length (ChunkUpload.requests (chunkUpload events)))%nat ->
     ChunkUpload.outcome
       (chunkUpload (events ++ [ChunkUpload.Replied i
                                  (ChunkUpload.ReplyStatus message status)]))
     = Some (ChunkUpload.Rejected (Errors.newServerResponseError message url status)) /\
     Classify.isCriticalError (Errors.newServerResponseError message url status)
     = negb ((status =? 400)%Z || (status =? 404)%Z || (status =? 409)%Z)) /\
  (forall i message,
     (i < length (ChunkUpload.requests (chunkUpload events)))%nat ->
     ChunkUpload.outcome
       (chunkUpload (events ++ [ChunkUpload.Replied i (ChunkUpload.ReplyFailure message)]))
     = Some (ChunkUpload.Rejected (Errors.newFileUploadError message url)) /\
     Classify.isCriticalError (Errors.newFileUploadError message url) = true).
Proof.
  intros chunkUpload Ho. subst chunkUpload. unfold ChunkUpload.chunkUpload in *.
  set (st := fold_left _ events ChunkUpload.initial) in *.
  split; [|split].
  - intros message. rewrite fold_left_app. fold st. simpl.
    unfold ChunkUpload.settle. rewrite Ho. simpl. split; reflexivity.
  - intros i message status Hi. apply lookup_lt_is_Some in Hi as [r Hr].
    rewrite fold_left_app. fold st. simpl. rewrite Hr. simpl.
    unfold ChunkUpload.settle. simpl. rewrite Ho. simpl. split; reflexivity.
  - intros i message Hi. apply lookup_lt_is_Some in Hi as [r Hr].
    rewrite fold_left_app. fold st. simpl. rewrite Hr. simpl.
    unfold ChunkUpload.settle. simpl. rewrite Ho. simpl. split; reflexivity.
Qed.

Lemma chunkUpload_rejection_severity_witness :
  let chunkUpload :=
    ChunkUpload.chunkUpload (fun s => s) Samples.uploader "img/cat.png"
      (ChunkUpload.Build_Options 120000 []) 1700000000000 in
  let sent := [ ChunkUpload.StreamOpen; ChunkUpload.StatResolved 3;
                ChunkUpload.StreamData "abc" 1700000000400 ] in
  (ChunkUpload.outcome (chunkUpload []) = None /\
   ChunkUpload.requests (chunkUpload []) = [] /\
   ChunkUpload.outcome
     (chunkUpload ([] ++ [ChunkUpload.StreamError "ENOENT: no such file or directory"]))
   = Some (ChunkUpload.Rejected
             (Errors.newFileOpenError "ENOENT: no such file or directory" "img/cat.png")) /\
   Classify.isCriticalError
     (Errors.newFileOpenError "ENOENT: no such file or directory" "img/cat.png") = false) /\
  (ChunkUpload.outcome (chunkUpload sent) = None /\
   length (ChunkUpload.requests (chunkUpload sent)) = 1%nat /\
   (ChunkUpload.outcome
      (chunkUpload (sent ++ [ChunkUpload.StreamError "EIO: i/o error, read"]))
    = Some (ChunkUpload.Rejected
              (Errors.newFileOpenError "EIO: i/o error, read" "img/cat.png")) /\
    Classify.isCriticalError
      (Errors.newFileOpenError "EIO: i/o error, read" "img/cat.png") = false) /\
   (ChunkUpload.outcome
      (chunkUpload (sent ++ [ChunkUpload.Replied 0
                               (ChunkUpload.ReplyStatus "Unauthorized" 401)]))
    = Some (ChunkUpload.Rejected
              (Errors.newServerResponseError "Unauthorized" "img/cat.png" 401)) /\
    Classify.isCriticalError
      (Errors.newServerResponseError "Unauthorized" "img/cat.png" 401)
    = negb ((401 =? 400)%Z || (401 =? 404)%Z || (401 =? 409)%Z)) /\
   (ChunkUpload.outcome
      (chunkUpload (sent ++ [ChunkUpload.Replied 0
                               (ChunkUpload.ReplyStatus "Conflict" 409)]))
    = Some (ChunkUpload.Rejected
              (Errors.newServerResponseError "Conflict" "img/cat.png" 409)) /\
    Classify.isCriticalError
      (Errors.newServerResponseError "Conflict" "img/cat.png" 409)
    = negb ((409 =? 400)%Z || (409 =? 404)%Z || (409 =? 409)%Z)) /\
   (ChunkUpload.outcome
      (chunkUpload (sent ++ [ChunkUpload.Replied 0
                               (ChunkUpload.ReplyFailure "timeout of 120000ms exceeded")]))
    = Some (ChunkUpload.Rejected
              (Errors.newFileUploadError "timeout of 120000ms exceeded" "img/cat.png")) /\
    Classify.isCriticalError
      (Errors.newFileUploadError "timeout of 120000ms exceeded" "img/cat.png") = true)).
Proof.
  intros chunkUpload sent.
  assert (Hnone : ChunkUpload.outcome (chunkUpload []) = None) by reflexivity.
  assert (Hsent : ChunkUpload.outcome (chunkUpload sent) = None) by reflexivity.
  assert (Hlen : length (ChunkUpload.requests (chunkUpload sent)) = 1%nat) by reflexivity.
  pose proof (chunkUpload_rejection_severity (fun s => s) Samples.uploader "img/cat.png"
                (ChunkUpload.Build_Options 120000 []) 1700000000000 [] Hnone)
    as [Hopen _].
  pose proof (chunkUpload_rejection_severity (fun s => s) Samples.uploader "img/cat.png"
                (ChunkUpload.Build_Options 120000 []) 1700000000000 sent Hsent)
    as [Herror [Hstatus Hfailure]].
  assert (Hi : (0 < length (ChunkUpload.requests (chunkUpload sent)))%nat)
    by (rewrite Hlen; lia).
  split.
  - split; [exact Hnone|]. split; [reflexivity|]. apply Hopen.
  - split; [exact Hsent|]. split; [exact Hlen|].
    split; [apply Herror|]. split; [apply (Hstatus 0%nat _ _ Hi)|].
    split; [apply (Hstatus 0%nat _ _ Hi)|apply (Hfailure 0%nat _ Hi)].
Defined.

(** ** More on the worker pool *)

Lemma get_set_eq k v (o : Js.Obj) : Js.get k (Js.set k v o) = v.
Proof.
  induction o as [|[k' v'] o IH]; simpl.
  - now rewrite String.eqb_refl.
  - destruct (String.eqb_spec k k') as [->|Hne]; simpl.
    + now rewrite String.eqb_refl.
    + destruct (String.eqb_spec k k'); [congruence | exact IH].
Qed.

Lemma In_insert {A} (l : list A) : forall i x y,
  In x (<[i := y]> l) -> x = y \/ In x l.
Proof.
  induction l as [|a l IH]; intros [|i] x y; simpl; auto.
  - intros [H|H]; auto.
  - intros [H|H]; auto. apply IH in H. tauto.
Qed.

Section PoolMore.

Import BulkUpload Invariants.

Variable Shared : Type.
Variable aborted : Shared -> bool.
Variable callback :
  option (string -> option string -> option Errors.t -> Shared -> Shared).
Variable imgDir : string.
Variable timeout : option Z.
Variable optionalParams : Js.Obj.

Abbreviation pstep := (step Shared aborted callback imgDir timeout optionalParams).
Abbreviation prun := (run Shared aborted callback imgDir timeout optionalParams).

Abbreviation callFor := (Observations.callFor imgDir timeout).

Lemma step_calls filenames st l st' :
  poolInv imgDir filenames st ->
  Forall (callFor filenames) (snd <$> started st) ->
  pstep st l = Some st' ->
  Forall (callFor filenames) (snd <$> started st').
Proof.
  intros (_ & Hc & _) Hf. unfold step.
  destruct l as [w|w result]; destruct (workers st !! w) as [[| |]|]; try discriminate.
  - destruct (cursor st) as [|filename rest] eqn:Ecur; [now intros [= <-]|].
    destruct (aborted (shared st)); intros [= <-]; simpl; [exact Hf|].
    rewrite fmap_app. apply Forall_app. split; [exact Hf|].
    constructor; [|constructor]. exists filename. simpl.
    split; [rewrite <- Hc; apply in_or_app; right; now left|].
    split; [reflexivity|]. split; [reflexivity|].
    unfold Js.spread. simpl. apply get_set_eq.
  - now intros [= <-].
Qed.

Lemma run_calls filenames labels : forall st st',
  poolInv imgDir filenames st ->
  Forall (callFor filenames) (snd <$> started st) ->
  prun st labels = Some st' ->
  Forall (callFor filenames) (snd <$> started st').
Proof.
  induction labels as [|l labels IH]; intros st st' Hinv Hf; simpl.
  - now intros [= <-].
  - destruct (pstep st l) as [st1|] eqn:E; [|discriminate].
    apply IH.
    + eapply step_poolInv; eauto.
    + eapply step_calls; eauto.
Qed.

Abbreviation drains := (Observations.drains imgDir).

Lemma step_drains st l st' :
  (forall sh, aborted sh = false) ->
  drains st -> pstep st l = Some st' -> drains st'.
Proof.
  intros Hna (Hs & He). unfold step, drains.
  destruct l as [w|w result]; destruct (workers st !! w) as [[| |]|]; try discriminate.
  - destruct (cursor st) as [|filename rest] eqn:Ecur.
    + intros [= <-]. simpl. auto.
    + rewrite Hna. intros [= <-]. simpl. rewrite !fmap_app, Hs. split; [reflexivity|].
      intros Hin. apply In_insert in Hin as [Hin|Hin]; [discriminate|].
      apply He in Hin. discriminate.
  - intros [= <-]. simpl. split; [exact Hs|].
    intros Hin. apply In_insert in Hin as [Hin|Hin]; [discriminate | auto].
Qed.

Lemma run_drains labels : forall st st',
  (forall sh, aborted sh = false) ->
  drains st -> prun st labels = Some st' -> drains st'.
Proof.
  induction labels as [|l labels IH]; intros st st' Hna Hd; simpl.
  - now intros [= <-].
  - destruct (pstep st l) as [st1|] eqn:E; [|discriminate].
    apply IH; [exact Hna|]. eapply step_drains; eauto.
Qed.

End PoolMore.

(** X13. Every upload the pool starts is for a filename of the input: the
    path is the image directory followed by the filename, the timeout is the
    one given to [bulkUpload], and the [public_id] sent is the filename
    without its extension, also when the caller's parameters held a
    [public_id] of their own. *)
Theorem bulkUpload_call_arguments
    (Shared : Type) (aborted : Shared -> bool)
    (callback : option (string -> option string -> option Errors.t -> Shared -> Shared))
    (imgDir : string) (timeout : option Z) (optionalParams : Js.Obj)
    (filenames : list string) (sh : Shared)
    (labels : list BulkUpload.Label) (st : BulkUpload.State Shared) :
  BulkUpload.run Shared aborted callback imgDir timeout optionalParams
    (BulkUpload.begin Shared filenames sh) labels = Some st ->
  Forall
    (fun c =>
       exists filename,
         In filename filenames /\
         BulkUpload.callURL c = imgDir +:+ filename /\
         BulkUpload.callTimeout c = timeout /\
         Js.get "public_id" (BulkUpload.callParams c)
         = Js.VStr (BulkUpload.publicName filename))
    (snd <$> BulkUpload.started st).
Proof.
  intros Hrun.
  apply (run_calls Shared aborted callback imgDir timeout optionalParams filenames
           labels _ st (begin_poolInv Shared imgDir filenames sh)); [|exact Hrun].
  constructor.
Qed.

Lemma bulkUpload_call_arguments_witness :
  exists st,
    BulkUpload.run unit (fun _ => false) None "img/" (Some 5000%Z)
      [("public_id", Js.VStr "mine"); ("folder", Js.VStr "pets")]
      (BulkUpload.begin unit ["cat.png"; "dog.jpeg"] tt)
      [BulkUpload.Claim 0; BulkUpload.Claim 1] = Some st /\
    Forall
      (fun c =>
         exists filename,
           In filename ["cat.png"; "dog.jpeg"] /\
           BulkUpload.callURL c = "img/" +:+ filename /\
           BulkUpload.callTimeout c = Some 5000%Z /\
           Js.get "public_id" (BulkUpload.callParams c)
           = Js.VStr (BulkUpload.publicName filename))
      (snd <$> BulkUpload.started st).
Proof.
  assert (Hrun : exists st,
            BulkUpload.run unit (fun _ => false) None "img/" (Some 5000%Z)
              [("public_id", Js.VStr "mine"); ("folder", Js.VStr "pets")]
              (BulkUpload.begin unit ["cat.png"; "dog.jpeg"] tt)
              [BulkUpload.Claim 0; BulkUpload.Claim 1] = Some st)
    by (eexists; vm_compute; reflexivity).
  destruct Hrun as [st Hrun]. exists st. split; [exact Hrun|].
  exact (bulkUpload_call_arguments unit (fun _ => false) None "img/" (Some 5000%Z)
           [("public_id", Js.VStr "mine"); ("folder", Js.VStr "pets")]
           ["cat.png"; "dog.jpeg"] tt [BulkUpload.Claim 0; BulkUpload.Claim 1] st Hrun).
Defined.

(** X14. Without a signal that can be aborted ([signal] left [null]), a pool
    whose workers have all returned has uploaded every filename of the input
    exactly once and in input order: the generator is empty, the filenames
    taken are the input, and an upload was started for each of them by the
    worker that took it. *)
Theorem bulkUpload_without_signal_uploads_all
    (Shared : Type) (aborted : Shared -> bool)
    (callback : option (string -> option string -> option Errors.t -> Shared -> Shared))
    (imgDir : string) (timeout : option Z) (optionalParams : Js.Obj)
    (filenames : list string) (sh : Shared)
    (labels : list BulkUpload.Label) (st : BulkUpload.State Shared) :
  (forall s, aborted s = false) ->
  BulkUpload.run Shared aborted callback imgDir timeout optionalParams
    (BulkUpload.begin Shared filenames sh) labels = Some st ->
  BulkUpload.allExited st = true ->
  BulkUpload.cursor st = [] /\
  snd <$> BulkUpload.claimed st = filenames /\
  (fun c => (fst c, BulkUpload.callURL (snd c))) <$> BulkUpload.started st
  = (fun c => (fst c, imgDir +:+ snd c)) <$> BulkUpload.claimed st.
Proof.
  intros Hna Hrun Hall.
  destruct (run_poolInv Shared aborted callback imgDir timeout optionalParams
              filenames labels _ st (begin_poolInv Shared imgDir filenames sh) Hrun)
    as (Hw & Hc & _).
  assert (Hd0 : Observations.drains imgDir (BulkUpload.begin Shared filenames sh)).
  { split; [reflexivity|]. simpl. unfold BulkUpload.numRequests.
    intros Hin. apply list_elem_of_In, elem_of_replicate in Hin as [Hin _].
    discriminate. }
  destruct (run_drains Shared aborted callback imgDir timeout optionalParams
              labels _ st Hna Hd0 Hrun) as (Hs & He).
  assert (Hcur : BulkUpload.cursor st = []).
  { unfold BulkUpload.allExited in Hall. rewrite forallb_forall in Hall.
    destruct (BulkUpload.workers st) as [|w ws] eqn:Ew.
    - simpl in Hw. destruct filenames as [|f fs]; [|discriminate].
      now destruct (app_eq_nil _ _ Hc).
    - apply He. specialize (Hall w (or_introl eq_refl)).
      destruct w; try discriminate. now left. }
  split; [exact Hcur|]. split; [|exact Hs].
  rewrite Hcur, app_nil_r in Hc. exact Hc.
Qed.

Lemma bulkUpload_without_signal_uploads_all_witness :
  exists st,
    BulkUpload.run unit (fun _ => false) None "img/" None []
      (BulkUpload.begin unit ["cat.png"; "dog.jpeg"] tt)
      [ BulkUpload.Claim 0; BulkUpload.Claim 1;
        BulkUpload.Settle 1 (BulkUpload.Fulfilled "ok");
        BulkUpload.Settle 0 (BulkUpload.Failed Samples.canceled);
        BulkUpload.Claim 1; BulkUpload.Claim 0 ] = Some st /\
    BulkUpload.allExited st = true /\
    snd <$> BulkUpload.claimed st = ["cat.png"; "dog.jpeg"].
Proof.
  assert (Hrun : exists st,
            BulkUpload.run unit (fun _ => false) None "img/" None []
              (BulkUpload.begin unit ["cat.png"; "dog.jpeg"] tt)
              [ BulkUpload.Claim 0; BulkUpload.Claim 1;
                BulkUpload.Settle 1 (BulkUpload.Fulfilled "ok");
                BulkUpload.Settle 0 (BulkUpload.Failed Samples.canceled);
                BulkUpload.Claim 1; BulkUpload.Claim 0 ] = Some st
            /\ BulkUpload.allExited st = true)
    by (eexists; split; vm_compute; reflexivity).
  destruct Hrun as (st & Hrun & Hall). exists st.
  split; [exact Hrun|]. split; [exact Hall|].
  apply (bulkUpload_without_signal_uploads_all unit (fun _ => false) None "img/" None []
           ["cat.png"; "dog.jpeg"] tt _ st (fun _ => eq_refl) Hrun Hall).
Defined.

(** X15. At any moment the uploads a pool is awaiting number at most ten, and
    at most the number of filenames it was given. *)
Theorem bulkUpload_in_flight_bound
    (Shared : Type) (aborted : Shared -> bool)
    (callback : option (string -> option string -> option Errors.t -> Shared -> Shared))
    (imgDir : string) (timeout : option Z) (optionalParams : Js.Obj)
    (filenames : list string) (sh : Shared)
    (labels : list BulkUpload.Label) (st : BulkUpload.State Shared) :
  BulkUpload.run Shared aborted callback imgDir timeout optionalParams
    (BulkUpload.begin Shared filenames sh) labels = Some st ->
  let inFlight :=
    List.filter (fun w => match w with BulkUpload.Awaiting _ => true | _ => false end)
      (BulkUpload.workers st) in
  (length inFlight <= 10)%nat /\ (length inFlight <= length filenames)%nat.
Proof.
  intros Hrun inFlight.
  destruct (run_poolInv Shared aborted callback imgDir timeout optionalParams
              filenames labels _ st (begin_poolInv Shared imgDir filenames sh) Hrun)
    as (Hw & _ & _).
  assert (Hle : (length inFlight <= length (BulkUpload.workers st))%nat).
  { subst inFlight. generalize (BulkUpload.workers st) as ws.
    induction ws as [|w ws IH]; simpl; [lia|]. destruct w; simpl; lia. }
  lia.
Qed.

Lemma bulkUpload_in_flight_bound_witness :
  exists st,
    Samples.poolRun = Some st /\
    (length
       (List.filter (fun w => match w with BulkUpload.Awaiting _ => true | _ => false end)
          (BulkUpload.workers st)) <= 10)%nat.
Proof.
  assert (Hrun : exists st, Samples.poolRun = Some st)
    by (eexists; vm_compute; reflexivity).
  destruct Hrun as [st Hrun]. exists st. split; [exact Hrun|].
  apply (bulkUpload_in_flight_bound Coordinator.Shared Coordinator.signalAborted
    (Some (Coordinator.callback Samples.env Samples.elevenOptions))
    "img/" None [("overwrite", Js.VBool true)] Samples.elevenFiles
    {| Coordinator.world := Coordinator.world0; Coordinator.signalAborted := false |}
    Samples.tenClaimsThenAbort st Hrun).
Defined.

(** ** More on the batch coordinator *)

Section FilterKeeps.

Import Coordinator.

Variable env : Env.
Variable uploader : Uploader.t.
Variable options : UploadOptions.
Variable P : World -> Prop.

Hypothesis keeps_emit_error : forall s p, keeps P (emit UPLOAD_ERROR s p).
Hypothesis keeps_logError : forall msg, keeps P (logError env options msg).
Hypothesis keeps_recordHead : forall u, keeps P (recordHead u).

Lemma keeps_ret {A} (a : A) : keeps P (ret a).
Proof. intros w H. exact H. Qed.

Lemma keeps_throw {A} e : keeps P (@throw A e).
Proof. intros w H. exact H. Qed.

Lemma keeps_bind {A B} (m : M A) (k : A -> M B) :
  keeps P m -> (forall a, keeps P (k a)) -> keeps P (bind m k).
Proof.
  intros Hm Hk w Hw. unfold bind. specialize (Hm w Hw).
  destruct (m w) as [[a|e] w']; simpl in *; [now apply Hk | exact Hm].
Qed.

Lemma keeps_filterPredicate f : keeps P (filterPredicate env uploader options f).
Proof.
  unfold filterPredicate.
  apply keeps_bind.
  - destruct (ImageValidator.isValidImage _ _ _) as [v|e].
    + apply keeps_ret.
    + apply keeps_bind; [apply keeps_emit_error|]. intros _.
      apply keeps_bind; [apply keeps_logError|]. intros _.
      apply keeps_ret.
  - intros imgRes. apply keeps_bind.
    + destruct imgRes as [[| |]|]; try apply keeps_ret.
      apply keeps_bind; [apply keeps_emit_error|]. intros _.
      apply keeps_logError.
    + intros _. destruct imgRes as [[| |]|]; try apply keeps_ret.
      destruct (ignoreFileExistCheck options); [apply keeps_ret|].
      apply keeps_bind.
      * unfold identifier. destruct (List.find _ _);
          [apply keeps_ret | apply keeps_throw].
      * intros o. apply keeps_bind; [|intros; apply keeps_ret].
        unfold checkExists.
        apply keeps_bind; [apply keeps_recordHead|]. intros _.
        apply keeps_ret.
Qed.

Lemma keeps_asyncFilter arr :
  keeps P (asyncFilter arr (filterPredicate env uploader options)).
Proof.
  induction arr as [|value rest IH]; simpl; [apply keeps_ret|].
  intros w Hw. pose proof (keeps_filterPredicate value w Hw) as H1.
  destruct (filterPredicate env uploader options value w) as [[keep|e] w1]; simpl in *.
  - specialize (IH w1 H1).
    destruct (asyncFilter rest _ w1) as [[kept|e] w2]; simpl in *; exact IH.
  - exact (IH w1 H1).
Qed.

Lemma keeps_preUpload : keeps P (preUpload env uploader options).
Proof.
  unfold preUpload. apply keeps_bind.
  - unfold openErrorFile. destruct (errorFilename _); [|apply keeps_ret].
    destruct (_ && _); [apply keeps_throw | apply keeps_ret].
  - intros _. apply keeps_bind.
    + unfold candidates. destruct (specificFiles options); [apply keeps_ret|].
      destruct (readdir env _); [apply keeps_ret | apply keeps_throw].
    + intros arr. apply keeps_asyncFilter.
Qed.

End FilterKeeps.

Lemma criticals_logError env options msg k :
  keeps (fun w => criticals w = k) (Coordinator.logError env options msg).
Proof.
  intros w Hw. unfold Coordinator.logError, Coordinator.bind, Coordinator.enqueueWrite.
  simpl. destruct (Coordinator.hasErrorFile options); simpl; [|exact Hw].
  destruct (Coordinator.appendOk env msg); simpl; [|exact Hw].
  unfold criticals in *. simpl. destruct (_ =? _)%Z; [|exact Hw].
  rewrite List.filter_app, length_app. simpl. lia.
Qed.

Lemma step_criticalOnce env options b l b' :
  criticalOnce b -> Coordinator.step env options b l = Some b' ->
  criticalOnce b' /\
  (Coordinator.signalAborted (BulkUpload.shared (Coordinator.pool b)) = true ->
   Coordinator.signalAborted (BulkUpload.shared (Coordinator.pool b')) = true).
Proof.
  unfold criticalOnce, Coordinator.batchWorld. intros Hc.
  destruct l as [pl|i|i|]; simpl.
  - unfold Coordinator.poolStep, BulkUpload.step.
    destruct pl as [w|w r];
      destruct (BulkUpload.workers (Coordinator.pool b) !! w) as [[| |]|];
      try discriminate.
    + destruct (BulkUpload.cursor (Coordinator.pool b)); [intros [= <-]; auto|].
      destruct (Coordinator.signalAborted _) eqn:E; intros [= <-]; simpl;
        rewrite E; auto.
    + intros [= <-]. simpl.
      destruct (BulkUpload.shared (Coordinator.pool b)) as [w0 ab]. simpl in *.
      destruct r as [data|error]; unfold Coordinator.callback; simpl.
      * unfold criticals in *. simpl.
        rewrite List.filter_app, length_app. simpl. split; [lia | auto].
      * destruct ab; simpl.
        -- unfold criticals in *. simpl.
           rewrite List.filter_app, length_app. simpl. split; [lia | auto].
        -- destruct (Classify.isCriticalError error); simpl;
             unfold Coordinator.logErrorStart, Coordinator.bind, criticals in *; simpl;
             destruct (Coordinator.hasErrorFile options); simpl;
             rewrite List.filter_app, length_app; simpl; split; auto; lia.
  - destruct (Coordinator.pendingWrites _ !! i) as [msg|]; [|discriminate].
    intros [= <-]. simpl. split; [|auto]. rewrite <- Hc.
    unfold criticals, Coordinator.batchWorld. simpl.
    destruct (_ =? _)%Z; [|reflexivity].
    rewrite List.filter_app, length_app. simpl. lia.
  - destruct (Coordinator.pendingWrites _ !! i) as [msg|]; [|discriminate].
    intros [= <-]. simpl. auto.
  - destruct (Coordinator.phase b); try discriminate.
    destruct (BulkUpload.allExited _); [|discriminate]. intros [= <-]. auto.
Qed.

Lemma run_criticalOnce env options labels : forall b b',
  criticalOnce b -> Coordinator.run env options b labels = Some b' ->
  criticalOnce b' /\
  (Coordinator.signalAborted (BulkUpload.shared (Coordinator.pool b)) = true ->
   Coordinator.signalAborted (BulkUpload.shared (Coordinator.pool b')) = true).
Proof.
  induction labels as [|l labels IH]; intros b b' Hb; simpl.
  - intros [= <-]. auto.
  - destruct (Coordinator.step env options b l) as [b1|] eqn:Hs; [|discriminate].
    intros Hrun. destruct (step_criticalOnce env options b l b1 Hb Hs) as [H1 Ha].
    destruct (IH b1 b' H1 Hrun) as [H2 Ha']. auto.
Qed.

(** X16. Cancellation happens once and for good: in every state of a batch
    the number of [UPLOAD_CRITICAL] notifications emitted is one if the
    signal is aborted and zero otherwise, and a signal that is aborted stays
    aborted in every later state. *)
Theorem critical_notification_once
    (env : Coordinator.Env) (uploader : Uploader.t)
    (options : Coordinator.UploadOptions)
    (b0 b b' : Coordinator.Batch) (labels later : list Coordinator.Label) :
  Coordinator.upload env uploader options = Coordinator.Runs b0 ->
  Coordinator.run env options b0 labels = Some b ->
  Coordinator.run env options b later = Some b' ->
  length (List.filter
            (fun n => Coordinator.Event_eqb (Coordinator.event n)
                        Coordinator.UPLOAD_CRITICAL)
            (Coordinator.emitted (Coordinator.batchWorld b)))
  = (if Coordinator.signalAborted (BulkUpload.shared (Coordinator.pool b))
     then 1%nat else 0%nat) /\
  (Coordinator.signalAborted (BulkUpload.shared (Coordinator.pool b)) = true ->
   Coordinator.signalAborted (BulkUpload.shared (Coordinator.pool b')) = true).
Proof.
  intros H0 Hrun Hlater.
  assert (Hb0 : criticalOnce b0).
  { unfold Coordinator.upload in H0.
    pose proof (keeps_preUpload env uploader options (fun w => criticals w = 0%nat)) as Hk.
    assert (Hw : criticals (snd (Coordinator.preUpload env uploader options
                                   Coordinator.world0)) = 0%nat).
    { apply Hk; [| | |reflexivity].
      - intros s p w Hw. simpl. unfold criticals in *. simpl.
        rewrite List.filter_app, length_app. simpl. lia.
      - intros msg. apply criticals_logError.
      - intros u w Hw. exact Hw. }
    destruct (Coordinator.preUpload env uploader options Coordinator.world0)
      as [[filenames|e] w]; [|discriminate].
    injection H0 as <-. exact Hw. }
  destruct (run_criticalOnce env options labels b0 b Hb0 Hrun) as [Hb _].
  destruct (run_criticalOnce env options later b b' Hb Hlater) as [_ Ha].
  split; [exact Hb | exact Ha].
Qed.

Lemma critical_notification_once_witness :
  exists b0 b,
    Coordinator.upload Samples.env Samples.uploader Samples.twoFiles
      = Coordinator.Runs b0 /\
    Coordinator.run Samples.env Samples.twoFiles b0 Samples.abortedRun = Some b /\
    length (List.filter
              (fun n => Coordinator.Event_eqb (Coordinator.event n)
                          Coordinator.UPLOAD_CRITICAL)
              (Coordinator.emitted (Coordinator.batchWorld b)))
    = (if Coordinator.signalAborted (BulkUpload.shared (Coordinator.pool b))
       then 1%nat else 0%nat).
Proof.
  assert (H : exists b0 b,
            Coordinator.upload Samples.env Samples.uploader Samples.twoFiles
              = Coordinator.Runs b0 /\
            Coordinator.run Samples.env Samples.twoFiles b0 Samples.abortedRun = Some b)
    by (eexists _, _; split; vm_compute; reflexivity).
  destruct H as (b0 & b & H0 & Hrun). exists b0, b.
  split; [exact H0|]. split; [exact Hrun|].
  apply (critical_notification_once Samples.env Samples.uploader Samples.twoFiles
           b0 b b Samples.abortedRun [] H0 Hrun eq_refl).
Defined.

(** One error report of the filter, when the error file takes the write:
    one [UPLOAD_ERROR] notification with the text, the text and the
    separator appended to the file, the counter back where it was. *)
Lemma report_logged env options pathname text w :
  Coordinator.hasErrorFile options = true ->
  Coordinator.appendOk env (text +:+ Coordinator.lineSeparator env options) = true ->
  exists w',
    Coordinator.bind
      (Coordinator.emit Coordinator.UPLOAD_ERROR pathname (Coordinator.PMessage text))
      (fun _ => Coordinator.logError env options
                  (text +:+ Coordinator.lineSeparator env options)) w
    = (Coordinator.Ok tt, w') /\
    visible w'
    = visible w ++ [Coordinator.notify Coordinator.UPLOAD_ERROR pathname
                      (Coordinator.PMessage text)] /\
    Coordinator.logFile w'
    = Coordinator.logFile w ++ [text +:+ Coordinator.lineSeparator env options] /\
    Coordinator.writeCount w' = Coordinator.writeCount w /\
    Coordinator.pendingWrites w' = Coordinator.pendingWrites w /\
    Coordinator.headRequests w' = Coordinator.headRequests w.
Proof.
  intros Hh Ha.
  unfold Coordinator.bind, Coordinator.logError, Coordinator.bind. simpl.
  rewrite Hh, Ha. simpl. eexists. split; [reflexivity|]. simpl.
  unfold visible. simpl.
  split.
  - destruct (_ =? _)%Z; rewrite !List.filter_app; simpl;
      rewrite ?app_nil_r; reflexivity.
  - repeat split. lia.
Qed.

(** X17. A file the validator finds [INVALID] is reported once and dropped:
    when the error file takes the write, the predicate answers [false], emits
    one [UPLOAD_ERROR] for the path with the text [Failed to upload "path":
    file is invalid.], appends that text and the line separator to the error
    file, and makes no remote request. *)
Theorem invalid_file_reported_once
    (env : Coordinator.Env) (uploader : Uploader.t)
    (options : Coordinator.UploadOptions) (f : string) (w : Coordinator.World) :
  let pathname := Coordinator.imgDir options +:+ f in
  let errorMsg :=
    "Failed to upload " +:+ Js.dquote +:+ pathname +:+ Js.dquote
    +:+ ": file is invalid." in
  ImageValidator.isValidImage (Coordinator.fs env)
    (Coordinator.allowedFileTypes options) pathname = inl ImageValidator.INVALID ->
  Coordinator.hasErrorFile options = true ->
  Coordinator.appendOk env (errorMsg +:+ Coordinator.lineSeparator env options) = true ->
  exists w',
    Coordinator.filterPredicate env uploader options f w = (Coordinator.Ok false, w') /\
    visible w'
    = visible w ++ [Coordinator.notify Coordinator.UPLOAD_ERROR pathname
                      (Coordinator.PMessage errorMsg)] /\
    Coordinator.logFile w'
    = Coordinator.logFile w ++ [errorMsg +:+ Coordinator.lineSeparator env options] /\
    Coordinator.writeCount w' = Coordinator.writeCount w /\
    Coordinator.headRequests w' = Coordinator.headRequests w.
Proof.
  intros pathname errorMsg Hv Hh Ha.
  destruct (report_logged env options pathname errorMsg w Hh Ha)
    as (w' & Hr & Hvis & Hlog & Hcount & _ & Hhead).
  exists w'. split; [|auto].
  unfold Coordinator.filterPredicate. fold pathname. rewrite Hv.
  unfold Coordinator.bind at 1. simpl. unfold Coordinator.bind at 1.
  fold errorMsg. rewrite Hr. reflexivity.
Qed.

Lemma invalid_file_reported_once_witness :
  exists w',
    Coordinator.filterPredicate Samples.env Samples.uploader
      (Samples.batchOf ["cat.png"] [] (Some "errors.log") [])
      "cat.png" Coordinator.world0 = (Coordinator.Ok false, w') /\
    length (Coordinator.logFile w') = 1%nat.
Proof.
  destruct (invalid_file_reported_once Samples.env Samples.uploader
              (Samples.batchOf ["cat.png"] [] (Some "errors.log") [])
              "cat.png" Coordinator.world0 eq_refl eq_refl eq_refl)
    as (w' & Hp & _ & Hlog & _).
  exists w'. split; [exact Hp|]. now rewrite Hlog.
Defined.

(** X18. A file the validator cannot read is reported once and dropped: when
    the error file takes the write, the predicate answers [false], emits one
    [UPLOAD_ERROR] for the path with the text of the [FileOpenError], appends
    that text and the line separator to the error file, and makes no remote
    request. *)
Theorem unreadable_file_reported_once
    (env : Coordinator.Env) (uploader : Uploader.t)
    (options : Coordinator.UploadOptions) (f : string) (w : Coordinator.World)
    (error : Errors.t) :
  let pathname := Coordinator.imgDir options +:+ f in
  ImageValidator.isValidImage (Coordinator.fs env)
    (Coordinator.allowedFileTypes options) pathname = inr error ->
  Coordinator.hasErrorFile options = true ->
  Coordinator.appendOk env
    (Errors.toString error +:+ Coordinator.lineSeparator env options) = true ->
  exists w',
    Coordinator.filterPredicate env uploader options f w = (Coordinator.Ok false, w') /\
    visible w'
    = visible w ++ [Coordinator.notify Coordinator.UPLOAD_ERROR pathname
                      (Coordinator.PMessage (Errors.toString error))] /\
    Coordinator.logFile w'
    = Coordinator.logFile w
      ++ [Errors.toString error +:+ Coordinator.lineSeparator env options] /\
    Coordinator.writeCount w' = Coordinator.writeCount w /\
    Coordinator.headRequests w' = Coordinator.headRequests w.
Proof.
  intros pathname Hv Hh Ha.
  destruct (report_logged env options pathname (Errors.toString error) w Hh Ha)
    as (w' & Hr & Hvis & Hlog & Hcount & _ & Hhead).
  exists w'. split; [|auto].
  unfold Coordinator.filterPredicate. fold pathname. rewrite Hv.
  unfold Coordinator.bind in *. simpl in *.
  destruct (Coordinator.logError env options _ _) as [[[]|e] w1]; simpl in *;
    [|discriminate].
  now injection Hr as ->.
Qed.

Lemma unreadable_file_reported_once_witness :
  exists w',
    Coordinator.filterPredicate Samples.env Samples.uploader
      (Samples.batchOf ["dog.png"] [] (Some "errors.log") [])
      "dog.png" Coordinator.world0 = (Coordinator.Ok false, w') /\
    length (Coordinator.logFile w') = 1%nat.
Proof.
  destruct (unreadable_file_reported_once Samples.env Samples.uploader
              (Samples.batchOf ["dog.png"] [] (Some "errors.log") [])
              "dog.png" Coordinator.world0
              (Errors.newFileOpenError "ENOENT: no such file or directory" "img/dog.png")
              eq_refl eq_refl eq_refl)
    as (w' & Hp & _ & Hlog & _).
  exists w'. split; [exact Hp|]. now rewrite Hlog.
Defined.

Lemma filterPredicate_keep env uploader options f w keep w' :
  Coordinator.filterPredicate env uploader options f w = (Coordinator.Ok keep, w') ->
  keep = isVALID (ImageValidator.isValidImage (Coordinator.fs env)
                    (Coordinator.allowedFileTypes options)
                    (Coordinator.imgDir options +:+ f)).
Proof.
  unfold Coordinator.filterPredicate, Coordinator.bind.
  destruct (ImageValidator.isValidImage _ _ _) as [[| |]|e]; simpl.
  - now intros [= <- _].
  - destruct (Coordinator.ignoreFileExistCheck options); simpl; [now intros [= <- _]|].
    discriminate.
  - destruct (Coordinator.logError env options _ _) as [[[]|?] ?]; simpl;
      [now intros [= <- _] | discriminate].
  - destruct (Coordinator.logError env options _ _) as [[[]|?] ?]; simpl;
      [now intros [= <- _] | discriminate].
Qed.

(** X19. When the filter completes, the filenames handed to the pool are the
    candidates the validator found [VALID], each as often as it was listed;
    every other candidate is left out. *)
Theorem asyncFilter_keeps_valid_files
    (env : Coordinator.Env) (uploader : Uploader.t)
    (options : Coordinator.UploadOptions)
    (arr kept : list string) (w w' : Coordinator.World) :
  Coordinator.asyncFilter arr (Coordinator.filterPredicate env uploader options) w
  = (Coordinator.Ok kept, w') ->
  kept ≡ₚ List.filter
            (fun f => isVALID (ImageValidator.isValidImage (Coordinator.fs env)
                                 (Coordinator.allowedFileTypes options)
                                 (Coordinator.imgDir options +:+ f)))
            arr.
Proof.
  revert kept w w'. induction arr as [|value rest IH]; intros kept w w'; simpl.
  - now intros [= <- _].
  - destruct (Coordinator.filterPredicate env uploader options value w)
      as [[keep|e] w1] eqn:Hp; [|discriminate].
    destruct (Coordinator.asyncFilter rest _ w1) as [[kept'|e] w2] eqn:Hr;
      [|discriminate].
    intros [= <- _]. apply filterPredicate_keep in Hp. rewrite <- Hp.
    specialize (IH kept' w1 w2 Hr). destruct keep; [now constructor | exact IH].
Qed.

Lemma asyncFilter_keeps_valid_files_witness :
  exists kept w',
    Coordinator.asyncFilter ["cat.png"; "a.raw"; "notes.txt"; "a.raw"]
      (Coordinator.filterPredicate Samples.env Samples.uploader
         (Samples.batchOf [] ["png"; "raw"] (Some "errors.log")
            [("overwrite", Js.VBool true)]))
      Coordinator.world0 = (Coordinator.Ok kept, w') /\
    kept ≡ₚ ["a.raw"; "a.raw"].
Proof.
  assert (H : exists kept w',
            Coordinator.asyncFilter ["cat.png"; "a.raw"; "notes.txt"; "a.raw"]
              (Coordinator.filterPredicate Samples.env Samples.uploader
                 (Samples.batchOf [] ["png"; "raw"] (Some "errors.log")
                    [("overwrite", Js.VBool true)]))
              Coordinator.world0 = (Coordinator.Ok kept, w'))
    by (eexists _, _; vm_compute; reflexivity).
  destruct H as (kept & w' & H). exists kept, w'. split; [exact H|].
  exact (asyncFilter_keeps_valid_files _ _ _ _ _ _ _ H).
Defined.

(** X20. In fail-if-exists mode an error file that is already there rejects
    the call before any candidate is looked at: nothing is emitted, logged or
    requested. *)
Theorem upload_rejects_when_error_file_exists
    (env : Coordinator.Env) (uploader : Uploader.t)
    (options : Coordinator.UploadOptions) (name : string) :
  Coordinator.errorFilename (Coordinator.errorOptions options) = Some name ->
  Coordinator.overwrite (Coordinator.errorOptions options) = false ->
  Coordinator.logExists env name = true ->
  Coordinator.upload env uploader options
  = Coordinator.Rejects (Js.SystemError "EEXIST: file already exists")
      Coordinator.world0.
Proof.
  intros Hn Ho He.
  unfold Coordinator.upload, Coordinator.preUpload, Coordinator.bind,
    Coordinator.openErrorFile.
  rewrite Hn, Ho, He. reflexivity.
Qed.

Lemma upload_rejects_when_error_file_exists_witness :
  Coordinator.upload
    {| Coordinator.fs := Coordinator.fs Samples.env;
       Coordinator.readdir := Coordinator.readdir Samples.env;
       Coordinator.logExists := fun _ => true;
       Coordinator.appendOk := fun _ => true;
       Coordinator.remoteExists := fun _ => false;
       Coordinator.EOL := Coordinator.EOL Samples.env |}
    Samples.uploader
    {| Coordinator.imgDir := "img/";
       Coordinator.specificFiles := Some ["a.raw"];
       Coordinator.errorOptions :=
         {| Coordinator.errorFilename := Some "errors.log";
            Coordinator.lineSep := None; Coordinator.timeout := None;
            Coordinator.overwrite := false |};
       Coordinator.optionalParams := [];
       Coordinator.allowedFileTypes := [] |}
  = Coordinator.Rejects (Js.SystemError "EEXIST: file already exists")
      Coordinator.world0.
Proof.
  apply (upload_rejects_when_error_file_exists _ _ _ "errors.log"); reflexivity.
Defined.

(** X21. Without an error file a batch that has reported an upload error
    never completes: the counter of pending writes was incremented and
    nothing decrements it, so the error file is never "closed" and, once
    [upload] waits for the last write, no step is left. *)
Theorem upload_never_completes_without_log
    (env : Coordinator.Env) (uploader : Uploader.t)
    (options : Coordinator.UploadOptions)
    (b0 b : Coordinator.Batch) (labels : list Coordinator.Label) :
  Coordinator.upload env uploader options = Coordinator.Runs b0 ->
  Coordinator.hasErrorFile options = false ->
  Coordinator.run env options b0 labels = Some b ->
  Coordinator.enqueued (Coordinator.batchWorld b) <> [] ->
  Coordinator.phase b <> Coordinator.Closed /\
  (Coordinator.phase b = Coordinator.WaitingForWrites ->
   forall l, Coordinator.step env options b l = None).
Proof.
  intros H0 Hh Hrun Hne.
  pose proof (run_batchInv env options labels b0 b
                (upload_batchInv env uploader options b0 H0) Hrun)
    as ((Hn & Hp) & Hs & Hc).
  rewrite Hh in Hn, Hp. destruct Hp as (_ & Hpend & _).
  split.
  - intros Hcl. specialize (Hc Hcl). rewrite Hc in Hn.
    destruct (Coordinator.enqueued (Coordinator.batchWorld b)); [now elim Hne|].
    simpl in Hn. lia.
  - intros Hph l. destruct l as [pl|i|i|]; simpl.
    + rewrite (allExited_no_step env options); [reflexivity|].
      apply Hs. rewrite Hph. discriminate.
    + now rewrite Hpend.
    + now rewrite Hpend.
    + now rewrite Hph.
Qed.

Lemma upload_never_completes_without_log_witness :
  exists b0 b,
    Coordinator.upload Samples.env Samples.uploader
      (Samples.batchOf ["a.raw"] [] None [("overwrite", Js.VBool true)])
    = Coordinator.Runs b0 /\
    Coordinator.run Samples.env
      (Samples.batchOf ["a.raw"] [] None [("overwrite", Js.VBool true)]) b0
      [ Coordinator.PoolStep (BulkUpload.Claim 0);
        Coordinator.PoolStep (BulkUpload.Settle 0 (BulkUpload.Failed Samples.canceled));
        Coordinator.PoolStep (BulkUpload.Claim 0);
        Coordinator.PoolSettled ] = Some b /\
    Coordinator.phase b = Coordinator.WaitingForWrites /\
    (forall l, Coordinator.step Samples.env
                 (Samples.batchOf ["a.raw"] [] None [("overwrite", Js.VBool true)])
                 b l = None).
Proof.
  assert (H : exists b0 b,
    Coordinator.upload Samples.env Samples.uploader
      (Samples.batchOf ["a.raw"] [] None [("overwrite", Js.VBool true)])
    = Coordinator.Runs b0 /\
    Coordinator.run Samples.env
      (Samples.batchOf ["a.raw"] [] None [("overwrite", Js.VBool true)]) b0
      [ Coordinator.PoolStep (BulkUpload.Claim 0);
        Coordinator.PoolStep (BulkUpload.Settle 0 (BulkUpload.Failed Samples.canceled));
        Coordinator.PoolStep (BulkUpload.Claim 0);
        Coordinator.PoolSettled ] = Some b /\
    Coordinator.phase b = Coordinator.WaitingForWrites /\
    Coordinator.enqueued (Coordinator.batchWorld b) <> [])
    by (eexists _, _; split; [vm_compute; reflexivity|];
        split; [vm_compute; reflexivity|]; split; [reflexivity | discriminate]).
  destruct H as (b0 & b & H0 & Hrun & Hph & Hne). exists b0, b.
  split; [exact H0|]. split; [exact Hrun|]. split; [exact Hph|].
  destruct (upload_never_completes_without_log Samples.env Samples.uploader _ b0 b _
              H0 eq_refl Hrun Hne) as [_ Hstuck].
  exact (Hstuck Hph).
Defined.

Lemma writes_drain env options n : forall b,
  Invariants.batchInv options b ->
  Coordinator.phase b = Coordinator.WaitingForWrites ->
  Coordinator.hasErrorFile options = true ->
  Coordinator.failedWrites (Coordinator.batchWorld b) = [] ->
  length (Coordinator.pendingWrites (Coordinator.batchWorld b)) = S n ->
  exists b',
    Coordinator.run env options b (replicate (S n) (Coordinator.WriteDone 0)) = Some b' /\
    Coordinator.phase b' = Coordinator.Closed.
Proof.
  induction n as [|n IH]; intros b Hinv Hph Hh Hf Hlen.
  - destruct (Coordinator.pendingWrites (Coordinator.batchWorld b)) as [|msg rest] eqn:Ep;
      [discriminate|].
    destruct rest; [|discriminate].
    destruct Hinv as ((Hn & _) & _). rewrite Hh, Ep, Hf in Hn. simpl in Hn.
    simpl. rewrite Ep. simpl. rewrite Hph, Hn. simpl.
    eexists. split; reflexivity.
  - destruct (Coordinator.pendingWrites (Coordinator.batchWorld b)) as [|msg rest] eqn:Ep;
      [discriminate|].
    assert (Hstep : exists b1, Coordinator.step env options b (Coordinator.WriteDone 0)
                               = Some b1 /\
              Coordinator.phase b1 = Coordinator.WaitingForWrites /\
              Coordinator.failedWrites (Coordinator.batchWorld b1) = [] /\
              Coordinator.pendingWrites (Coordinator.batchWorld b1) = rest).
    { simpl. rewrite Ep. simpl. eexists. split; [reflexivity|].
      destruct Hinv as ((Hn & _) & _). rewrite Hh, Ep, Hf in Hn. simpl in Hn.
      simpl in Hlen. rewrite Hph.
      unfold Coordinator.batchWorld in Hn, Hf, Ep |- *. simpl.
      split; [|split; [exact Hf | reflexivity]].
      destruct (Z.eqb_spec
                  (Coordinator.writeCount
                     (Coordinator.world (BulkUpload.shared (Coordinator.pool b))) - 1) 0);
        [lia | reflexivity]. }
    destruct Hstep as (b1 & Hs & Hph1 & Hf1 & Hp1).
    destruct (IH b1) as (b' & Hrun & Hcl); auto.
    + eapply step_batchInv; eauto.
    + rewrite Hp1. simpl in Hlen. lia.
    + exists b'. split; [|exact Hcl].
      change (Coordinator.run env options b
                (replicate (S (S n)) (Coordinator.WriteDone 0)))
        with (match Coordinator.step env options b (Coordinator.WriteDone 0) with
              | Some b1 => Coordinator.run env options b1
                             (replicate (S n) (Coordinator.WriteDone 0))
              | None => None
              end).
      rewrite Hs. exact Hrun.
Qed.

(** X22. With an error file, a batch whose workers have all returned and
    none of whose writes has failed can always finish: after the pool has
    settled, the completion of the writes still in flight closes the error
    file. *)
Theorem upload_completes_when_writes_succeed
    (env : Coordinator.Env) (uploader : Uploader.t)
    (options : Coordinator.UploadOptions)
    (b0 b : Coordinator.Batch) (labels : list Coordinator.Label) :
  Coordinator.upload env uploader options = Coordinator.Runs b0 ->
  Coordinator.run env options b0 labels = Some b ->
  Coordinator.phase b = Coordinator.Uploading ->
  BulkUpload.allExited (Coordinator.pool b) = true ->
  Coordinator.hasErrorFile options = true ->
  Coordinator.failedWrites (Coordinator.batchWorld b) = [] ->
  exists b',
    Coordinator.run env options b
      (Coordinator.PoolSettled
       :: replicate (length (Coordinator.pendingWrites (Coordinator.batchWorld b)))
            (Coordinator.WriteDone 0)) = Some b' /\
    Coordinator.phase b' = Coordinator.Closed.
Proof.
  intros H0 Hrun Hph Hall Hh Hf.
  pose proof (run_batchInv env options labels b0 b
                (upload_batchInv env uploader options b0 H0) Hrun) as Hinv.
  pose proof Hinv as ((Hn & _) & _). rewrite Hh, Hf in Hn. simpl in Hn.
  assert (Hstep : Coordinator.step env options b Coordinator.PoolSettled
                  = Some {| Coordinator.pool := Coordinator.pool b;
                            Coordinator.phase :=
                              if (0 <? Coordinator.writeCount (Coordinator.batchWorld b))%Z
                              then Coordinator.WaitingForWrites
                              else Coordinator.Closed |}).
  { simpl. now rewrite Hph, Hall. }
  set (pending := Coordinator.pendingWrites (Coordinator.batchWorld b)) in *.
  change (Coordinator.run env options b
            (Coordinator.PoolSettled
             :: replicate (length pending) (Coordinator.WriteDone 0)))
    with (match Coordinator.step env options b Coordinator.PoolSettled with
          | Some b1 => Coordinator.run env options b1
                         (replicate (length pending) (Coordinator.WriteDone 0))
          | None => None
          end).
  rewrite Hstep.
  destruct (length pending) as [|n] eqn:El.
  - simpl in Hn. rewrite Hn. simpl. eexists. split; reflexivity.
  - destruct (Z.ltb_spec 0 (Coordinator.writeCount (Coordinator.batchWorld b))); [|lia].
    apply (writes_drain env options n); auto.
    eapply (step_batchInv env options b Coordinator.PoolSettled); [exact Hinv|].
    rewrite Hstep.
    destruct (Z.ltb_spec 0 (Coordinator.writeCount (Coordinator.batchWorld b)));
      [reflexivity | lia].
Qed.

Lemma upload_completes_when_writes_succeed_witness :
  exists b0 b b',
    Coordinator.upload Samples.env Samples.uploader Samples.twoFiles
      = Coordinator.Runs b0 /\
    Coordinator.run Samples.env Samples.twoFiles b0
      (firstn 6 Samples.abortedRun) = Some b /\
    Coordinator.run Samples.env Samples.twoFiles b
      (Coordinator.PoolSettled
       :: replicate (length (Coordinator.pendingWrites (Coordinator.batchWorld b)))
            (Coordinator.WriteDone 0)) = Some b' /\
    Coordinator.phase b' = Coordinator.Closed.
Proof.
  assert (H : exists b0 b,
    Coordinator.upload Samples.env Samples.uploader Samples.twoFiles
      = Coordinator.Runs b0 /\
    Coordinator.run Samples.env Samples.twoFiles b0
      (firstn 6 Samples.abortedRun) = Some b /\
    Coordinator.phase b = Coordinator.Uploading /\
    BulkUpload.allExited (Coordinator.pool b) = true /\
    Coordinator.failedWrites (Coordinator.batchWorld b) = [])
    by (eexists _, _; split; [vm_compute; reflexivity|];
        split; [vm_compute; reflexivity|]; repeat split).
  destruct H as (b0 & b & H0 & Hrun & Hph & Hall & Hf).
  destruct (upload_completes_when_writes_succeed Samples.env Samples.uploader
              Samples.twoFiles b0 b _ H0 Hrun Hph Hall eq_refl Hf) as (b' & Hr & Hc).
  exists b0, b, b'. auto.
Defined.

(** ** The upload in one request *)

Lemma get_set_ne k k' v (o : Js.Obj) :
  k <> k' -> Js.get k (Js.set k' v o) = Js.get k o.
Proof.
  intros Hne. induction o as [|[k0 v0] o IH]; simpl.
  - now destruct (String.eqb_spec k k').
  - destruct (String.eqb_spec k' k0) as [->|Hn]; simpl.
    + now destruct (String.eqb_spec k k0).
    + destruct (String.eqb_spec k k0); [reflexivity | exact IH].
Qed.

(** Reading a property of [{...a, ...b}]: the value in [b] when [b] has the
    property, else the value in [a]. *)
Lemma get_spread k (b : Js.Obj) : forall a,
  NoDup (map fst b) ->
  Js.get k (Js.spread a b)
  = if existsb (fun kv => String.eqb k (fst kv)) b then Js.get k b else Js.get k a.
Proof.
  unfold Js.spread. induction b as [|[k1 v1] b IH]; intros a Hnd; simpl; [reflexivity|].
  apply NoDup_cons in Hnd as [Hk1 Hnd]. rewrite (IH _ Hnd).
  destruct (existsb (fun kv => String.eqb k (fst kv)) b) eqn:Ex.
  - apply existsb_exists in Ex as ([k2 v2] & Hin & Hk). simpl in Hk.
    apply String.eqb_eq in Hk. subst k2.
    destruct (String.eqb_spec k k1) as [->|Hne]; [|reflexivity].
    exfalso. apply Hk1. apply list_elem_of_In, in_map_iff. now exists (k1, v2).
  - rewrite orb_false_r.
    destruct (String.eqb_spec k k1) as [->|Hne];
      [apply get_set_eq | now apply get_set_ne].
Qed.

Lemma get_missing k (o : Js.Obj) :
  existsb (fun kv => String.eqb k (fst kv)) o = false -> Js.get k o = Js.VUndef.
Proof.
  induction o as [|[k1 v1] o IH]; simpl; [reflexivity|].
  destruct (String.eqb k k1); simpl; [discriminate | exact IH].
Qed.

(** X23. The upload in one request: a file that cannot be opened is rejected
    with [FileOpenError] and no request is sent; otherwise one request is
    sent, to [/<resource_type>/upload] when the parameters name a resource
    type and to [/auto/upload] when they have none or [null], with a
    signature computed over exactly the parameters sent as fields, among
    which [resource_type] is not. *)
Theorem upload_single_request
    (sha256_hex : string -> string) (self : Uploader.t) (url : string)
    (options : ChunkUpload.Options) (nowMs : Z) (reply : ChunkUpload.Reply) :
  NoDup (map fst (ChunkUpload.optionalParams options)) ->
  (forall message,
     SingleUpload.upload sha256_hex self url options
       (SingleUpload.StreamFailed message) nowMs reply
     = (None, ChunkUpload.Rejected (Errors.newFileOpenError message url))) /\
  (forall content, exists r params,
     fst (SingleUpload.upload sha256_hex self url options
            (SingleUpload.StreamOpened content) nowMs reply) = Some r /\
     SingleUpload.rqForm r
     = [ ("file", content); ("api_key", Uploader.apiKey self);
         ("timestamp", Js.showZ (ChunkUpload.roundSeconds nowMs));
         ("signature", Uploader.generateSignature sha256_hex self params) ]
       ++ map (fun kv => (fst kv, Js.toString (snd kv))) params /\
     ~ In "resource_type" (map fst (SingleUpload.rqForm r)) /\
     (forall type,
        Js.get "resource_type" (ChunkUpload.optionalParams options) = Js.VStr type ->
        SingleUpload.rqUrl r
        = "https://api.cloudinary.com/v1_1/" +:+ Uploader.cloudName self
          +:+ "/" +:+ type +:+ "/upload") /\
     (Js.get "resource_type" (ChunkUpload.optionalParams options) = Js.VUndef \/
      Js.get "resource_type" (ChunkUpload.optionalParams options) = Js.VNull ->
      SingleUpload.rqUrl r
      = "https://api.cloudinary.com/v1_1/" +:+ Uploader.cloudName self
        +:+ "/auto/upload")).
Proof.
  intros Hnd. split; [reflexivity|]. intros content.
  eexists _, _. split; [reflexivity|]. simpl.
  split; [reflexivity|].
  pose proof (delete_not_in "resource_type"
    (Js.spread [("timestamp", Js.VInt (ChunkUpload.roundSeconds nowMs))]
       (ChunkUpload.optionalParams options))) as Hn.
  assert (Hget : Js.get "resource_type"
                   (Js.spread [("timestamp", Js.VInt (ChunkUpload.roundSeconds nowMs))]
                      (ChunkUpload.optionalParams options))
                 = Js.get "resource_type" (ChunkUpload.optionalParams options)).
  { rewrite (get_spread _ _ _ Hnd).
    destruct (existsb _ _) eqn:Ex; [reflexivity|].
    now rewrite (get_missing _ _ Ex). }
  split; [|split].
  - intros [H|[H|[H|[H|H]]]]; try discriminate.
    rewrite map_map in H. simpl in H. exact (Hn H).
  - intros type Ht. unfold SingleUpload.resourceType. now rewrite Hget, Ht.
  - intros Ht. unfold SingleUpload.resourceType. rewrite Hget.
    destruct Ht as [-> | ->]; reflexivity.
Qed.

Lemma upload_single_request_witness :
  SingleUpload.rqUrl
    (SingleUpload.request (fun s => s) Samples.uploader
       (ChunkUpload.Build_Options 120000
          [("folder", Js.VStr "pets"); ("resource_type", Js.VStr "video")])
       "bytes" 1700000000400)
  = "https://api.cloudinary.com/v1_1/" +:+ "demo" +:+ "/" +:+ "video" +:+ "/upload".
Proof.
  assert (Hnd : NoDup (map fst [("folder", Js.VStr "pets");
                                ("resource_type", Js.VStr "video")])).
  { apply (bool_decide_unpack _). vm_compute. exact I. }
  destruct (upload_single_request (fun s => s) Samples.uploader "img/clip.mp4"
              (ChunkUpload.Build_Options 120000
                 [("folder", Js.VStr "pets"); ("resource_type", Js.VStr "video")])
              1700000000400 (ChunkUpload.ReplyOk "done") Hnd) as [_ H].
  destruct (H "bytes") as (r & params & Hr & _ & _ & Hurl & _).
  simpl in Hr. injection Hr as <-. apply Hurl. reflexivity.
Defined.

(** ** The URL of the existence check *)

Lemma nonempty_length s : s <> EmptyString -> (0 <? String.length s)%nat = true.
Proof. destruct s; [congruence | reflexivity]. Qed.

(** X24. Without a folder the URL of the existence check has an empty path
    segment: [null] passes the filter (its text is not empty) and is joined
    as the empty string, so the file is looked for at
    [.../image/upload//filename]. *)
Theorem checkExists_url_without_folder
    (self : Uploader.t) (filename : string) (options : Js.Obj) :
  Js.get "folder" options = Js.VUndef \/ Js.get "folder" options = Js.VNull ->
  Js.get "format" options = Js.VUndef \/ Js.get "format" options = Js.VNull ->
  Uploader.cloudName self <> EmptyString ->
  filename <> EmptyString ->
  CheckExists.url self filename options
  = "https://res.cloudinary.com/" +:+ Uploader.cloudName self
    +:+ "/image/upload//" +:+ filename.
Proof.
  intros Hfo Hfmt Hc Hf. unfold CheckExists.url.
  assert (Hfolder : match Js.get "folder" options with
                    | Js.VUndef => Js.VNull | v => v end = Js.VNull)
    by (destruct Hfo as [-> | ->]; reflexivity).
  assert (Hformat : match Js.get "format" options with
                    | Js.VUndef => Js.VNull | v => v end = Js.VNull)
    by (destruct Hfmt as [-> | ->]; reflexivity).
  rewrite Hfolder, Hformat. simpl.
  rewrite (nonempty_length _ Hc), (nonempty_length _ Hf). simpl.
  destruct (Uploader.cloudName self); [congruence|]. reflexivity.
Qed.

Lemma checkExists_url_without_folder_witness :
  CheckExists.url Samples.uploader "cat.png" [("overwrite", Js.VBool false)]
  = "https://res.cloudinary.com/" +:+ "demo" +:+ "/image/upload//" +:+ "cat.png".
Proof.
  apply (checkExists_url_without_folder Samples.uploader "cat.png"
           [("overwrite", Js.VBool false)]).
  - now left.
  - now left.
  - discriminate.
  - discriminate.
Defined.

(** X25. With a folder and a format the existence check looks for the file
    under the folder with its extension replaced by the format; for a
    filename without a dot the name looked for is the format alone. *)
Theorem checkExists_url_with_format
    (self : Uploader.t) (options : Js.Obj) (folder format : string) :
  Js.get "folder" options = Js.VStr folder ->
  Js.get "format" options = Js.VStr format ->
  Uploader.cloudName self <> EmptyString ->
  folder <> EmptyString ->
  format <> EmptyString ->
  (forall base ext,
     ~ In "."%char (String.list_ascii_of_string ext) ->
     CheckExists.url self (base +:+ "." +:+ ext) options
     = "https://res.cloudinary.com/" +:+ Uploader.cloudName self
       +:+ "/image/upload/" +:+ folder +:+ "/" +:+ (base +:+ "." +:+ format)) /\
  (forall filename,
     ~ In "."%char (String.list_ascii_of_string filename) ->
     CheckExists.url self filename options
     = "https://res.cloudinary.com/" +:+ Uploader.cloudName self
       +:+ "/image/upload/" +:+ folder +:+ "/" +:+ format).
Proof.
  intros Hfo Hfmt Hc Hfolder Hformat.
  assert (Hjoin : forall name, name <> EmptyString ->
    Js.joinVals "/"
      (List.filter (fun val => (0 <? String.length (Js.toString val))%nat)
         [ Js.VStr "https://res.cloudinary.com"; Js.VStr (Uploader.cloudName self);
           Js.VStr "image/upload"; Js.VStr folder; Js.VStr name ])
    = "https://res.cloudinary.com/" +:+ Uploader.cloudName self
      +:+ "/image/upload/" +:+ folder +:+ "/" +:+ name).
  { intros name Hname. simpl.
    rewrite (nonempty_length _ Hc), (nonempty_length _ Hfolder),
      (nonempty_length _ Hname). simpl.
    destruct (Uploader.cloudName self); [congruence|].
    destruct folder; [congruence|]. reflexivity. }
  split.
  - intros base ext Hn. unfold CheckExists.url. rewrite Hfo, Hfmt.
    cbv beta iota zeta.
    change (base +:+ "." +:+ ext) with (base +:+ String "." ext).
    rewrite (lastIndexOf_app_last _ _ _ Hn).
    assert (Hsub : Js.substringTo (String.length base + 1) (base +:+ String "." ext)
                   = base +:+ ".").
    { unfold Js.substringTo. clear. induction base as [|c base IH]; simpl.
      - now destruct ext.
      - now rewrite IH. }
    rewrite Hsub.
    assert (Happ : (base +:+ ".") +:+ format = base +:+ "." +:+ format).
    { clear. induction base as [|c base IH]; [reflexivity|].
      change (String c ((base +:+ ".") +:+ format) = String c (base +:+ "." +:+ format)).
      now rewrite IH. }
    rewrite Happ. apply Hjoin. now destruct base.
  - intros filename Hn. unfold CheckExists.url. rewrite Hfo, Hfmt.
    cbv beta iota zeta.
    apply lastIndexOf_None_iff in Hn. rewrite Hn.
    assert (Hsub : Js.substringTo 0 filename = EmptyString)
      by (unfold Js.substringTo; now destruct filename).
    rewrite Hsub. simpl String.append at 1. now apply Hjoin.
Qed.

Lemma checkExists_url_with_format_witness :
  CheckExists.url Samples.uploader ("cat" +:+ "." +:+ "png")
    [("folder", Js.VStr "pets"); ("format", Js.VStr "webp")]
  = "https://res.cloudinary.com/" +:+ "demo" +:+ "/image/upload/" +:+ "pets" +:+ "/"
    +:+ ("cat" +:+ "." +:+ "webp").
Proof.
  apply (proj1 (checkExists_url_with_format Samples.uploader
                  [("folder", Js.VStr "pets"); ("format", Js.VStr "webp")] "pets" "webp"
                  eq_refl eq_refl ltac:(discriminate) ltac:(discriminate)
                  ltac:(discriminate)) "cat" "png").
  simpl. intros [H1|[H1|[H1|H1]]]; try discriminate. exact H1.
Defined.
